(** * EV fleet charging optimizer: DAM / IDM allocation

    A shallow embedding of [ev_fleet_optimizer.py] (class [EVFleetOptimizer]):
    the live allocator [optimized_strategy], the DAM-only [baseline_strategy],
    the price lookup both share, parameter validation and average-price
    reporting.

    Number model.  Python floats are idealised as exact rationals [Q];
    numeric equality is [Qeq] ([==]).  Python [int]s are [Z].  A [datetime]
    is the number of minutes since an epoch that lies on a full hour, so
    [time.replace(minute=0, ...)] is rounding down to a multiple of 60.

    Round-off.  The program computes in binary64.  Statements over [Q]
    are kept to conclusions that round-off does not overturn: equalities
    between values the program copies, orderings with a margin, and
    closed forms only away from the points where a truncation or a
    comparison can flip.  Module [F64] replays single fragments of the
    program on primitive binary64 numbers; it is used to exhibit what
    round-off does at such points.

    Object model.  [self.vehicles] is a list of mutable dicts.  The list is
    the store; a reference to a vehicle is its index in the store, and an
    assignment [vehicle['k'] = x] is [alter] at that index. *)

From Stdlib Require Import ZArith QArith Qround Qminmax Lqa Lia List Permutation Sorted.
From stdpp Require Import gmap list strings sorting.
From Stdlib Require PrimFloat FloatOps SpecFloat.

Local Open Scope Q_scope.

(** ** Python numerics *)

(** [min(a, b)] of Python: the first argument wins a tie. *)
Definition py_min (a b : Q) : Q := if Qlt_le_dec b a then b else a.

(** [int(x)] of a float: truncation toward zero. *)
Definition py_int (x : Q) : Z := Z.quot (Qnum x) (Zpos (Qden x)).

Definition quarter : Q := 25 # 100.


(** ** Data model *)

Inductive idm_type := Idm15min | Idm60min.

(** One entry of a vehicle's [charging_schedule].  The baseline stores a
    bare number per hour; the optimized pass stores a dict tagged by
    ['source']. *)
Inductive sched_entry :=
| Hourly (kw : Q)
| SrcDAM (kw : Q)
| SrcIDM (kw : Q) (ty : idm_type)
| SrcMIXED (kw_dam kw_idm : Q) (ty : idm_type).

(** The vehicle dict built by [initialize_fleet]. *)
Record vehicle := mkVehicle {
  veh_id : string;
  day : Z;
  arrival_time : Z;
  departure_time : Z;
  return_soc : Q;
  target_soc : Q;
  current_soc : Q;
  capacity_kwh : Q;
  min_charge_kw : Q;
  max_charge_kw : Q;
  charging_schedule : gmap Z sched_entry;
  energy_needed_kwh : Q;
  charging_hours : Q
}.

(** [vehicle['current_soc'] = soc; vehicle['charging_schedule'] = sched]. *)
Definition set_state (soc : Q) (sched : gmap Z sched_entry) (v : vehicle) : vehicle :=
  {| veh_id := veh_id v; day := day v;
     arrival_time := arrival_time v; departure_time := departure_time v;
     return_soc := return_soc v; target_soc := target_soc v;
     current_soc := soc;
     capacity_kwh := capacity_kwh v;
     min_charge_kw := min_charge_kw v; max_charge_kw := max_charge_kw v;
     charging_schedule := sched;
     energy_needed_kwh := energy_needed_kwh v;
     charging_hours := charging_hours v |}.

(** A price DataFrame: rows [(Time, cena)] in file order. *)
Definition price_table := list (Z * Q).

(** A row of the [optimized] DataFrame (15-minute cadence). *)
Record opt_row := mkOptRow {
  Time : Z;
  total_charge_kw : Q;
  dam_charge_kw : Q;
  idm_charge_kw : Q;
  idm_15_charge_kw : Q;
  idm_60_charge_kw : Q;
  dam_price : Q;
  idm_price : Q;
  idm_15_price : Q;
  idm_60_price : Q;
  dam_cost : Q;
  idm_cost : Q;
  idm_15_cost : Q;
  idm_60_cost : Q;
  total_ev_charging : nat;
  total_ev_charging_dam : nat;
  total_ev_charging_idm : nat;
  total_ev_charging_idm_15 : nat;
  total_ev_charging_idm_60 : nat
}.

(** Rows of the [baseline] DataFrame (hourly cadence). *)
Module Baseline.
Record row := mkRow {
  Time : Z;
  total_charge_kw : Q;
  dam_price : Q;
  dam_cost : Q;
  total_ev_charging : nat
}.
End Baseline.

(** The optimizer object [self], with market data already loaded. *)
Record optimizer := mkOptimizer {
  fleet_size : Z;
  ev_capacity : Q;
  cfg_min_charge_kw : Q;
  cfg_max_charge_kw : Q;
  min_soc_target : Q;
  workdays_only : bool;
  dam_prices : price_table;
  idm_15_prices : price_table;
  idm_60_prices : price_table;
  vehicles : list vehicle;
  baseline_results : option (list Baseline.row);
  optimized_results : option (list opt_row)
}.

Definition set_vehicles (vs : list vehicle) (self : optimizer) : optimizer :=
  {| fleet_size := fleet_size self; ev_capacity := ev_capacity self;
     cfg_min_charge_kw := cfg_min_charge_kw self;
     cfg_max_charge_kw := cfg_max_charge_kw self;
     min_soc_target := min_soc_target self;
     workdays_only := workdays_only self;
     dam_prices := dam_prices self;
     idm_15_prices := idm_15_prices self;
     idm_60_prices := idm_60_prices self;
     vehicles := vs;
     baseline_results := baseline_results self;
     optimized_results := optimized_results self |}.

Definition set_optimized_results (t : list opt_row) (self : optimizer) : optimizer :=
  {| fleet_size := fleet_size self; ev_capacity := ev_capacity self;
     cfg_min_charge_kw := cfg_min_charge_kw self;
     cfg_max_charge_kw := cfg_max_charge_kw self;
     min_soc_target := min_soc_target self;
     workdays_only := workdays_only self;
     dam_prices := dam_prices self;
     idm_15_prices := idm_15_prices self;
     idm_60_prices := idm_60_prices self;
     vehicles := vehicles self;
     baseline_results := baseline_results self;
     optimized_results := Some t |}.

Definition set_baseline_results (t : list Baseline.row) (self : optimizer) : optimizer :=
  {| fleet_size := fleet_size self; ev_capacity := ev_capacity self;
     cfg_min_charge_kw := cfg_min_charge_kw self;
     cfg_max_charge_kw := cfg_max_charge_kw self;
     min_soc_target := min_soc_target self;
     workdays_only := workdays_only self;
     dam_prices := dam_prices self;
     idm_15_prices := idm_15_prices self;
     idm_60_prices := idm_60_prices self;
     vehicles := vehicles self;
     baseline_results := Some t;
     optimized_results := optimized_results self |}.

(** ** Time grid and eligibility *)

(** [pd.date_range(start=start, periods=periods, freq=...)], [freq] in minutes. *)
Definition date_range (start : Z) (periods : nat) (freq : Z) : list Z :=
  List.map (fun i => (start + freq * Z.of_nat i)%Z) (seq 0 periods).

(** [get_eligible_vehicles]: references to the vehicles whose stay overlaps
    the horizon, in fleet order. *)
Definition overlaps (start_time end_time : Z) (v : vehicle) : bool :=
  (start_time <? departure_time v)%Z && (arrival_time v <? end_time)%Z.

Definition get_eligible_vehicles (vs : list vehicle) (start_time end_time : Z) : list nat :=
  List.filter
    (fun j => match vs !! j with
              | Some v => overlaps start_time end_time v
              | None => false
              end)
    (seq 0 (length vs)).

(** ** Price lookup *)

(** [tbl[(tbl['Time'] >= lo) & (tbl['Time'] < hi)]]. *)
Definition rows_in_range (tbl : price_table) (lo hi : Z) : price_table :=
  List.filter (fun r => (lo <=? fst r)%Z && (fst r <? hi)%Z) tbl.

(** [(tbl['Time'] - t).abs().idxmin()]: the label of the first row at
    minimal distance, paired with that distance.  On an empty table there
    is no label; the source guards that case with [pd.isna]. *)
Fixpoint abs_argmin (tbl : price_table) (t : Z) : option (nat * Z) :=
  match tbl with
  | [] => None
  | r :: tbl' =>
      let d := Z.abs (fst r - t) in
      match abs_argmin tbl' t with
      | Some (j, d') => if (d <=? d')%Z then Some (O, d) else Some (S j, d')
      | None => Some (O, d)
      end
  end.

Definition abs_idxmin (tbl : price_table) (t : Z) : option nat :=
  fst <$> abs_argmin tbl t.

Definition default_price : Q := 50.

(** DAM price of the hour starting at [lo]: the first row of the hour's
    bucket, else the nearest row, else the constant 50.0.  On a table
    without rows the program raises in [idxmin] before it reaches its 50.0
    branch; the constant stands here for that case, and what is stated
    about a resolved price is stated for a table with rows. *)
Definition resolve_dam_price (dam : price_table) (lo : Z) : Q :=
  match rows_in_range dam lo (lo + 60) with
  | r :: _ => snd r
  | [] =>
      match abs_idxmin dam lo with
      | Some closest_idx =>
          match dam !! closest_idx with
          | Some r => snd r
          | None => default_price
          end
      | None => default_price
      end
  end.

(** IDM price of the bucket [[lo, lo + width)]: its first row, else the
    slot's DAM price. *)
Definition resolve_idm_price (idm : price_table) (lo width : Z) (dam_price_of_slot : Q) : Q :=
  match rows_in_range idm lo (lo + width) with
  | r :: _ => snd r
  | [] => dam_price_of_slot
  end.

Definition hour_of (time : Z) : Z := (60 * (time / 60))%Z.

(** The all-zero row the DataFrame is created with. *)
Definition blank_row (time : Z) : opt_row :=
  mkOptRow time 0 0 0 0 0 0 0 0 0 0 0 0 0 0 0 0 0 0.

(** Body of the "Load price data" loop for one row. *)
Definition load_prices (self : optimizer) (r : opt_row) : opt_row :=
  let time := Time r in
  let hour := hour_of time in
  let dam := resolve_dam_price (dam_prices self) hour in
  let p15 := resolve_idm_price (idm_15_prices self) time 15 dam in
  let p60 := resolve_idm_price (idm_60_prices self) hour 60 dam in
  {| Time := Time r;
     total_charge_kw := total_charge_kw r;
     dam_charge_kw := dam_charge_kw r;
     idm_charge_kw := idm_charge_kw r;
     idm_15_charge_kw := idm_15_charge_kw r;
     idm_60_charge_kw := idm_60_charge_kw r;
     dam_price := dam;
     idm_price := py_min p15 p60;
     idm_15_price := p15;
     idm_60_price := p60;
     dam_cost := dam_cost r;
     idm_cost := idm_cost r;
     idm_15_cost := idm_15_cost r;
     idm_60_cost := idm_60_cost r;
     total_ev_charging := total_ev_charging r;
     total_ev_charging_dam := total_ev_charging_dam r;
     total_ev_charging_idm := total_ev_charging_idm r;
     total_ev_charging_idm_15 := total_ev_charging_idm_15 r;
     total_ev_charging_idm_60 := total_ev_charging_idm_60 r |}.

(** ** Optimized strategy, phase 1: demand projection *)

(** An element of [time_slot_needs[time]['vehicles']]; [vehicle_ref] is the
    reference to the vehicle dict. *)
Record vdata := mkVdata {
  vehicle_ref : nat;
  energy_kwh : Q;
  power_kw : Q
}.

Record slot_need := mkSlotNeed {
  slot_vehicles : list vdata;
  total_energy_kwh : Q;
  total_power_kw : Q
}.

Definition empty_need : slot_need := mkSlotNeed [] 0 0.

(** The dict [time_slot_needs] as first filled: one empty record per slot. *)
Definition init_needs (schedule_times : list Z) : gmap Z slot_need :=
  foldl (fun needs time => <[time := empty_need]> needs) ∅ schedule_times.

(** Append a vehicle's need to a slot and update the slot totals. *)
Definition add_need (j : nat) (charge_amount_kwh charge_power_kw : Q) (n : slot_need) : slot_need :=
  {| slot_vehicles := slot_vehicles n ++ [mkVdata j charge_amount_kwh charge_power_kw];
     total_energy_kwh := total_energy_kwh n + charge_amount_kwh;
     total_power_kw := total_power_kw n + charge_power_kw |}.

(** [valid_times]: the slots of the grid inside the vehicle's stay. *)
Definition valid_times (schedule_times : list Z) (v : vehicle) : list Z :=
  List.filter (fun t => (arrival_time v <=? t)%Z && (t <? departure_time v)%Z)
              schedule_times.

(** [optimized.loc[optimized['Time'] == t, 'dam_price'].iloc[0]].  Every
    [t] asked for is a slot of the grid, so a row is always found. *)
Definition dam_price_at (optimized : list opt_row) (t : Z) : Q :=
  match List.find (fun r => (Time r =? t)%Z) optimized with
  | Some r => dam_price r
  | None => 0
  end.

(** [list.sort(key=lambda x: x[1])]: a stable sort on the price.  The head
    of the list precedes everything it ties with. *)
Fixpoint insert_by_price (x : Z * Q) (l : list (Z * Q)) : list (Z * Q) :=
  match l with
  | [] => [x]
  | y :: l' =>
      if Qle_bool (snd x) (snd y) then x :: y :: l'
      else y :: insert_by_price x l'
  end.

Fixpoint sort_by_price (l : list (Z * Q)) : list (Z * Q) :=
  match l with
  | [] => []
  | x :: l' => insert_by_price x (sort_by_price l')
  end.

(** The greedy loop over the price-ordered slots of one vehicle. *)
Fixpoint consume (j : nat) (v : vehicle) (time_prices : list (Z * Q))
         (remaining_energy_kwh : Q) (needs : gmap Z slot_need) : gmap Z slot_need :=
  match time_prices with
  | [] => needs
  | (time, _) :: rest =>
      if Qlt_le_dec 0 remaining_energy_kwh then
        let max_energy_per_period := max_charge_kw v * quarter in
        let charge_amount_kwh := py_min max_energy_per_period remaining_energy_kwh in
        let charge_power_kw := charge_amount_kwh / quarter in
        if Qlt_le_dec 0 charge_amount_kwh then
          consume j v rest (remaining_energy_kwh - charge_amount_kwh)
                  (alter (add_need j charge_amount_kwh charge_power_kw) time needs)
        else consume j v rest remaining_energy_kwh needs
      else needs
  end.

(** Body of the per-vehicle loop of phase 1. *)
Definition project_vehicle (schedule_times : list Z) (optimized : list opt_row)
           (vs : list vehicle) (needs : gmap Z slot_need) (j : nat) : gmap Z slot_need :=
  match vs !! j with
  | None => needs
  | Some v =>
      let total_energy_needed_kwh := (target_soc v - return_soc v) * capacity_kwh v in
      if Qlt_le_dec 0 total_energy_needed_kwh then
        match valid_times schedule_times v with
        | [] => needs
        | ts =>
            let time_prices := List.map (fun t => (t, dam_price_at optimized t)) ts in
            consume j v (sort_by_price time_prices) total_energy_needed_kwh needs
        end
      else needs
  end.

(** "Reset all vehicles to initial state". *)
Definition reset_vehicle (v : vehicle) : vehicle := set_state (return_soc v) ∅ v.

Definition reset_eligible (eligible : list nat) (vs : list vehicle) : list vehicle :=
  foldl (fun vs j => alter reset_vehicle j vs) vs eligible.

Definition phase1 (schedule_times : list Z) (optimized : list opt_row)
           (vs : list vehicle) (eligible : list nat) : gmap Z slot_need :=
  foldl (project_vehicle schedule_times optimized vs) (init_needs schedule_times) eligible.

(** ** Optimized strategy, phases 2 and 3: market split and redistribution *)

(** The split of lines 2869-2876 in exact arithmetic.  In binary64 the
    product and the quotient are rounded, and the truncation can then give
    one step less or more where the exact IDM share is a whole number of
    steps or within round-off of one; [idm_actual_rounded] and [F64.split]
    follow the rounded computation. *)
Definition dam_target_kw (DAM_ALLOCATION total : Q) : Q := total * DAM_ALLOCATION.
Definition idm_target_kw (DAM_ALLOCATION total : Q) : Q := total - dam_target_kw DAM_ALLOCATION total.
Definition idm_actual_kw (DAM_ALLOCATION total : Q) : Z :=
  (py_int (idm_target_kw DAM_ALLOCATION total / 100) * 100)%Z.
Definition dam_actual_kw (DAM_ALLOCATION total : Q) : Q :=
  total - inject_Z (idm_actual_kw DAM_ALLOCATION total).

Definition use_15_min_idm (r : opt_row) : bool := Qle_bool (idm_15_price r) (idm_60_price r).

(** Phase 2 for one slot that has vehicles: the columns written into row [i]. *)
Definition allocate_slot (DAM_ALLOCATION : Q) (slot_needs : slot_need) (r : opt_row) : opt_row :=
  let total := total_power_kw slot_needs in
  let idm := idm_actual_kw DAM_ALLOCATION total in
  let dam := dam_actual_kw DAM_ALLOCATION total in
  let n := length (slot_vehicles slot_needs) in
  let idm_booked := (0 <? idm)%Z in
  let dam_booked := if Qlt_le_dec 0 dam then true else false in
  {| Time := Time r;
     total_charge_kw := total;
     dam_charge_kw := if dam_booked then dam else dam_charge_kw r;
     idm_charge_kw := if idm_booked then inject_Z idm else idm_charge_kw r;
     idm_15_charge_kw :=
       if idm_booked && use_15_min_idm r then inject_Z idm else idm_15_charge_kw r;
     idm_60_charge_kw :=
       if idm_booked && negb (use_15_min_idm r) then inject_Z idm else idm_60_charge_kw r;
     dam_price := dam_price r;
     idm_price := idm_price r;
     idm_15_price := idm_15_price r;
     idm_60_price := idm_60_price r;
     dam_cost := dam_cost r;
     idm_cost := idm_cost r;
     idm_15_cost := idm_15_cost r;
     idm_60_cost := idm_60_cost r;
     total_ev_charging := n;
     total_ev_charging_dam := if dam_booked then n else total_ev_charging_dam r;
     total_ev_charging_idm := if idm_booked then n else total_ev_charging_idm r;
     total_ev_charging_idm_15 :=
       if idm_booked && use_15_min_idm r then n else total_ev_charging_idm_15 r;
     total_ev_charging_idm_60 :=
       if idm_booked && negb (use_15_min_idm r) then n else total_ev_charging_idm_60 r |}.

Definition vehicle_idm_kw (idm_ratio vehicle_power_kw : Q) : Q := vehicle_power_kw * idm_ratio.
Definition vehicle_dam_kw (dam_ratio vehicle_power_kw : Q) : Q := vehicle_power_kw * dam_ratio.

(** The [charging_schedule] entry of a vehicle for one slot, if any. *)
Definition schedule_entry (use15 : bool) (v_dam_kw v_idm_kw : Q) : option sched_entry :=
  let ty := if use15 then Idm15min else Idm60min in
  if Qlt_le_dec 0 v_idm_kw then
    if Qlt_le_dec 0 v_dam_kw then Some (SrcMIXED v_dam_kw v_idm_kw ty)
    else Some (SrcIDM v_idm_kw ty)
  else if Qlt_le_dec 0 v_dam_kw then Some (SrcDAM v_dam_kw)
  else None.

(** Phase 3 for one vehicle of a slot: SOC and schedule update.  The sum
    [current_soc += ...] is exact here; in binary64 it carries round-off and
    can end a few units in the last place above the target. *)
Definition charge_vehicle (time : Z) (use15 : bool) (idm_ratio dam_ratio : Q)
           (vehicle_power_kw : Q) (v : vehicle) : vehicle :=
  let v_idm_kw := vehicle_idm_kw idm_ratio vehicle_power_kw in
  let v_dam_kw := vehicle_dam_kw dam_ratio vehicle_power_kw in
  let idm_energy_kwh := v_idm_kw * quarter in
  let dam_energy_kwh := v_dam_kw * quarter in
  let total_energy := idm_energy_kwh + dam_energy_kwh in
  set_state (current_soc v + total_energy / capacity_kwh v)
            (match schedule_entry use15 v_dam_kw v_idm_kw with
             | Some e => <[time := e]> (charging_schedule v)
             | None => charging_schedule v
             end)
            v.

(** Phase 3 for one slot. *)
Definition distribute (DAM_ALLOCATION : Q) (time : Z) (use15 : bool)
           (slot_needs : slot_need) (vs : list vehicle) : list vehicle :=
  let total := total_power_kw slot_needs in
  if Qlt_le_dec 0 total then
    let idm_ratio := inject_Z (idm_actual_kw DAM_ALLOCATION total) / total in
    let dam_ratio := dam_actual_kw DAM_ALLOCATION total / total in
    foldl (fun vs vd =>
             alter (charge_vehicle time use15 idm_ratio dam_ratio (power_kw vd))
                   (vehicle_ref vd) vs)
          vs (slot_vehicles slot_needs)
  else vs.

(** Console output of [optimized_strategy]. *)
Inductive market := DAM | IDM15 | IDM60.

Inductive event :=
| PrintStart (dam_allocation_pct : Q)
| PrintSlotCount (n : nat)
| PrintRowCount (n : nat)
| PrintEligible (n : nat)
| PrintPhase1
| PrintPhase2
| PrintSlot (time : Z) (total dam : Q) (idm : Z)
| PrintSummaryHeader
| PrintTotalEnergy (kwh : Q)
| PrintEnergyShare (m : market) (kwh pct : Q)
| PrintTotalCost (eur : Q)
| PrintCostShare (m : market) (eur pct : Q).

(** The loop [for i, time in enumerate(schedule_times)]: row [i] of the
    DataFrame is the row whose [Time] is [time]. *)
Fixpoint allocate_slots (DAM_ALLOCATION : Q) (needs : gmap Z slot_need)
         (optimized : list opt_row) (vs : list vehicle)
  : list opt_row * list vehicle * list event :=
  match optimized with
  | [] => ([], vs, [])
  | r :: rest =>
      let time := Time r in
      let slot_needs := default empty_need (needs !! time) in
      match slot_vehicles slot_needs with
      | [] =>
          let '(rest', vs', out) := allocate_slots DAM_ALLOCATION needs rest vs in
          (r :: rest', vs', out)
      | _ :: _ =>
          let total := total_power_kw slot_needs in
          let r' := allocate_slot DAM_ALLOCATION slot_needs r in
          let vs1 := distribute DAM_ALLOCATION time (use_15_min_idm r) slot_needs vs in
          let '(rest', vs', out) := allocate_slots DAM_ALLOCATION needs rest vs1 in
          (r' :: rest', vs',
           PrintSlot time total (dam_actual_kw DAM_ALLOCATION total)
                     (idm_actual_kw DAM_ALLOCATION total) :: out)
      end
  end.

(** ** Optimized strategy: cost accounting and the run as a whole *)

(** Body of the "Calculate costs" loop: kW * EUR/MWh / 1000 * 0.25 h. *)
Definition calculate_costs (r : opt_row) : opt_row :=
  let c15 := idm_15_charge_kw r * idm_15_price r / 1000 * quarter in
  let c60 := idm_60_charge_kw r * idm_60_price r / 1000 * quarter in
  {| Time := Time r;
     total_charge_kw := total_charge_kw r;
     dam_charge_kw := dam_charge_kw r;
     idm_charge_kw := idm_charge_kw r;
     idm_15_charge_kw := idm_15_charge_kw r;
     idm_60_charge_kw := idm_60_charge_kw r;
     dam_price := dam_price r;
     idm_price := idm_price r;
     idm_15_price := idm_15_price r;
     idm_60_price := idm_60_price r;
     dam_cost := dam_charge_kw r * dam_price r / 1000 * quarter;
     idm_cost := c15 + c60;
     idm_15_cost := c15;
     idm_60_cost := c60;
     total_ev_charging := total_ev_charging r;
     total_ev_charging_dam := total_ev_charging_dam r;
     total_ev_charging_idm := total_ev_charging_idm r;
     total_ev_charging_idm_15 := total_ev_charging_idm_15 r;
     total_ev_charging_idm_60 := total_ev_charging_idm_60 r |}.

(** [column.sum()]. *)
Definition column_sum {A} (col : A -> Q) (rows : list A) : Q :=
  foldl (fun acc r => acc + col r) 0 rows.

(** The closing summary printed by [optimized_strategy]. *)
Definition print_summary (optimized : list opt_row) : list event :=
  let total_dam_energy := column_sum dam_charge_kw optimized * quarter in
  let total_idm_15_energy := column_sum idm_15_charge_kw optimized * quarter in
  let total_idm_60_energy := column_sum idm_60_charge_kw optimized * quarter in
  let total_energy := total_dam_energy + total_idm_15_energy + total_idm_60_energy in
  let total_dam_cost := column_sum dam_cost optimized in
  let total_idm_15_cost := column_sum idm_15_cost optimized in
  let total_idm_60_cost := column_sum idm_60_cost optimized in
  let total_cost := total_dam_cost + total_idm_15_cost + total_idm_60_cost in
  [PrintSummaryHeader; PrintTotalEnergy total_energy]
  ++ (if Qlt_le_dec 0 total_energy then
        [PrintEnergyShare DAM total_dam_energy (total_dam_energy / total_energy * 100);
         PrintEnergyShare IDM15 total_idm_15_energy (total_idm_15_energy / total_energy * 100);
         PrintEnergyShare IDM60 total_idm_60_energy (total_idm_60_energy / total_energy * 100)]
      else [])
  ++ [PrintTotalCost total_cost]
  ++ (if Qlt_le_dec 0 total_cost then
        [PrintCostShare DAM total_dam_cost (total_dam_cost / total_cost * 100);
         PrintCostShare IDM15 total_idm_15_cost (total_idm_15_cost / total_cost * 100);
         PrintCostShare IDM60 total_idm_60_cost (total_idm_60_cost / total_cost * 100)]
      else []).

(** [simulation_end] defaults to 24 hours after the start. *)
Definition end_or_default (simulation_start : Z) (simulation_end : option Z) : Z :=
  default (simulation_start + 24 * 60)%Z simulation_end.

(** [int((simulation_end - simulation_start).total_seconds() / 900)] slots of
    15 minutes.  For a horizon that ends before it starts [pd.date_range]
    raises on the negative count; the grid is empty here. *)
Definition optimized_schedule_times (simulation_start simulation_end : Z) : list Z :=
  date_range simulation_start (Z.to_nat (Z.quot (simulation_end - simulation_start) 15)) 15.

(** The DataFrame after the price-loading loop. *)
Definition priced_table (self : optimizer) (schedule_times : list Z) : list opt_row :=
  List.map (fun t => load_prices self (blank_row t)) schedule_times.

(** [optimized_strategy(simulation_start, simulation_end, options,
    DAM_ALLOCATION)].  The argument [options] is never read.  Returns the
    DataFrame, the optimizer with its vehicles mutated and the result stored,
    and what was printed. *)
Definition optimized_strategy (self : optimizer) (simulation_start : Z)
           (simulation_end : option Z) (DAM_ALLOCATION : Q)
  : list opt_row * optimizer * list event :=
  let simulation_end := end_or_default simulation_start simulation_end in
  let schedule_times := optimized_schedule_times simulation_start simulation_end in
  let optimized := priced_table self schedule_times in
  let eligible := get_eligible_vehicles (vehicles self) simulation_start simulation_end in
  let vs := reset_eligible eligible (vehicles self) in
  let needs := phase1 schedule_times optimized vs eligible in
  let '(optimized, vs, slot_out) := allocate_slots DAM_ALLOCATION needs optimized vs in
  let optimized := List.map calculate_costs optimized in
  (optimized,
   set_optimized_results optimized (set_vehicles vs self),
   [PrintStart (DAM_ALLOCATION * 100);
    PrintSlotCount (length schedule_times);
    PrintRowCount (length schedule_times);
    PrintEligible (length eligible);
    PrintPhase1; PrintPhase2]
   ++ slot_out ++ print_summary optimized).

(** The needs table a run computes, as its phase 2 sees it. *)
Definition run_needs (self : optimizer) (simulation_start : Z) (simulation_end : option Z)
  : gmap Z slot_need :=
  let simulation_end := end_or_default simulation_start simulation_end in
  let schedule_times := optimized_schedule_times simulation_start simulation_end in
  let eligible := get_eligible_vehicles (vehicles self) simulation_start simulation_end in
  phase1 schedule_times (priced_table self schedule_times)
         (reset_eligible eligible (vehicles self)) eligible.

(** ** Baseline strategy (DAM only, hourly slots) *)

Section BaselineStrategy.

(** [DataFrame.sort_values('dam_price')] with pandas' default sorting
    kind, which does not fix the order of rows with equal prices: the
    sort is a parameter of the model. *)
Variable sort_values : list Baseline.row -> list Baseline.row.

(** [int(total_seconds / 3600)] hours, 24 when that is not positive. *)
Definition simulation_hours (simulation_start simulation_end : Z) : nat :=
  let h := Z.quot (simulation_end - simulation_start) 60 in
  if (h <=? 0)%Z then 24%nat else Z.to_nat h.

Definition baseline_blank (time : Z) : Baseline.row := Baseline.mkRow time 0 0 0 0.

(** Body of the loop that maps DAM prices onto the hourly grid. *)
Definition baseline_load_price (dam : price_table) (r : Baseline.row) : Baseline.row :=
  Baseline.mkRow (Baseline.Time r) (Baseline.total_charge_kw r)
                 (resolve_dam_price dam (Baseline.Time r))
                 (Baseline.dam_cost r) (Baseline.total_ev_charging r).

(** [baseline['Time'].min()] and [.max()]. *)
Definition time_min (rows : list Baseline.row) : Z :=
  match rows with
  | [] => 0%Z
  | r :: rest => foldl (fun m r' => Z.min m (Baseline.Time r')) (Baseline.Time r) rest
  end.

Definition time_max (rows : list Baseline.row) : Z :=
  match rows with
  | [] => 0%Z
  | r :: rest => foldl (fun m r' => Z.max m (Baseline.Time r')) (Baseline.Time r) rest
  end.

(** [baseline.loc[baseline['Time'] == time, 'total_charge_kw'] += kw] and
    the same for the vehicle count. *)
Definition add_charge (time : Z) (kw : Q) (rows : list Baseline.row) : list Baseline.row :=
  List.map (fun r =>
              if (Baseline.Time r =? time)%Z then
                Baseline.mkRow (Baseline.Time r) (Baseline.total_charge_kw r + kw)
                               (Baseline.dam_price r) (Baseline.dam_cost r)
                               (S (Baseline.total_ev_charging r))
              else r)
           rows.

(** The allocation loop of one vehicle over its price-ordered hours. *)
Fixpoint charge_hours (v : vehicle) (slots : list Baseline.row) (remaining_energy : Q)
         (baseline : list Baseline.row) (vehicle_schedule : gmap Z sched_entry)
         (hours_charged : nat)
  : Q * list Baseline.row * gmap Z sched_entry * nat :=
  match slots with
  | [] => (remaining_energy, baseline, vehicle_schedule, hours_charged)
  | slot :: rest =>
      if Qlt_le_dec 0 remaining_energy then
        let time := Baseline.Time slot in
        let max_energy_per_hour := py_min (max_charge_kw v) remaining_energy in
        charge_hours v rest (remaining_energy - max_energy_per_hour)
                     (add_charge time max_energy_per_hour baseline)
                     (<[time := Hourly max_energy_per_hour]> vehicle_schedule)
                     (S hours_charged)
      else (remaining_energy, baseline, vehicle_schedule, hours_charged)
  end.

(** Body of the loop over the eligible vehicles.  The state is the
    DataFrame, the vehicle store and the count of charged vehicles. *)
Definition baseline_vehicle (st : list Baseline.row * list vehicle * nat) (j : nat)
  : list Baseline.row * list vehicle * nat :=
  let '(baseline, vs, charged_vehicles) := st in
  match vs !! j with
  | None => st
  | Some v =>
      let energy_needed := (target_soc v - return_soc v) * capacity_kwh v in
      if Qlt_le_dec 0 energy_needed then
        let charging_start := Z.max (arrival_time v) (time_min baseline) in
        let charging_end := Z.min (departure_time v) (time_max baseline) in
        let charging_slots :=
          List.filter (fun r => (charging_start <=? Baseline.Time r)%Z
                                && (Baseline.Time r <? charging_end)%Z) baseline in
        match charging_slots with
        | [] => st
        | _ :: _ =>
            let '(remaining_energy, baseline', vehicle_schedule, hours_charged) :=
              charge_hours v (sort_values charging_slots) energy_needed baseline ∅ O in
            let energy_charged := energy_needed - remaining_energy in
            (baseline',
             alter (set_state (return_soc v + energy_charged / capacity_kwh v)
                              vehicle_schedule) j vs,
             if (0 <? hours_charged)%nat then S charged_vehicles else charged_vehicles)
        end
      else st
  end.

Definition baseline_cost (r : Baseline.row) : Baseline.row :=
  Baseline.mkRow (Baseline.Time r) (Baseline.total_charge_kw r) (Baseline.dam_price r)
                 (Baseline.total_charge_kw r * Baseline.dam_price r / 1000)
                 (Baseline.total_ev_charging r).

(** The summary lines: vehicles charged, energy, cost, and the average
    price line, which shows a number only when energy was charged. *)
Record baseline_summary := mkSummary {
  charged_vehicles : nat;
  summary_energy : Q;
  summary_cost : Q;
  summary_avg_price : option Q
}.

Definition summarize_baseline (charged : nat) (baseline : list Baseline.row) : baseline_summary :=
  let total_energy := column_sum Baseline.total_charge_kw baseline in
  let total_cost := column_sum Baseline.dam_cost baseline in
  mkSummary charged total_energy total_cost
            (if Qlt_le_dec 0 total_energy then Some (total_cost / total_energy * 1000)
             else None).

Definition baseline_strategy (self : optimizer) (simulation_start : Z)
           (simulation_end : option Z)
  : list Baseline.row * optimizer * baseline_summary :=
  let simulation_end := end_or_default simulation_start simulation_end in
  let schedule_times :=
    date_range simulation_start (simulation_hours simulation_start simulation_end) 60 in
  let baseline :=
    List.map (fun t => baseline_load_price (dam_prices self) (baseline_blank t))
             schedule_times in
  let eligible := get_eligible_vehicles (vehicles self) simulation_start simulation_end in
  let '(baseline, vs, charged) :=
    foldl baseline_vehicle (baseline, vehicles self, O) eligible in
  let baseline := List.map baseline_cost baseline in
  (baseline,
   set_baseline_results baseline (set_vehicles vs self),
   summarize_baseline charged baseline).

End BaselineStrategy.

(** ** Parameter validation, construction and reporting *)

Inductive exn :=
| ValueError (msg : string)
| ZeroDivisionError.

Inductive result (A : Type) :=
| Ok (a : A)
| Raise (e : exn).
Arguments Ok {A} a.
Arguments Raise {A} e.

(** [validate_parameters], on parameters that are numbers.  The messages
    are the program's without their diacritics.  A NaN fails no comparison
    and passes every guard of the program; [Q] has no such value, and
    [F64.validate_parameters] replays the guards on binary64. *)
Definition validate_parameters (self : optimizer) : result unit :=
  if (fleet_size self <=? 0)%Z then
    Raise (ValueError "Velkost flotily musi byt kladne cislo")
  else if Qle_bool (ev_capacity self) 0 then
    Raise (ValueError "Kapacita baterie musi byt kladne cislo")
  else if negb (Qle_bool 0 (cfg_min_charge_kw self))
          || Qle_bool (cfg_max_charge_kw self) 0
          || negb (Qle_bool (cfg_min_charge_kw self) (cfg_max_charge_kw self)) then
    Raise (ValueError "Neplatne hodnoty nabijacieho vykonu")
  else if Qle_bool (min_soc_target self) 0 || negb (Qle_bool (min_soc_target self) 1) then
    Raise (ValueError "Cielovy SOC musi byt v rozmedzi (0, 1]")
  else Ok tt.

(** [EVFleetOptimizer.__init__]: stores its arguments, nothing else.  Price
    tables start unset; here they are empty until [load_market_data]. *)
Definition init (fleet_size : Z) (ev_capacity min_charge_kw max_charge_kw min_soc_target : Q)
           (workdays_only : bool) : result optimizer :=
  Ok (mkOptimizer fleet_size ev_capacity min_charge_kw max_charge_kw min_soc_target
                  workdays_only [] [] [] [] None None).

(** [load_market_data], with the spreadsheets already read. *)
Definition load_market_data (dam idm15 idm60 : price_table) (self : optimizer) : optimizer :=
  mkOptimizer (fleet_size self) (ev_capacity self) (cfg_min_charge_kw self)
              (cfg_max_charge_kw self) (min_soc_target self) (workdays_only self)
              dam idm15 idm60 (vehicles self)
              (baseline_results self) (optimized_results self).

(** Python's [a / b] on floats: an exception when [b] is zero. *)
Definition py_div (a b : Q) : result Q :=
  if Qeq_bool b 0 then Raise ZeroDivisionError else Ok (a / b).

Definition bind {A B} (m : result A) (k : A -> result B) : result B :=
  match m with
  | Ok a => k a
  | Raise e => Raise e
  end.

(** [calculate_average_price(energy_kwh, cost_eur)] in EUR/MWh.  The
    division is exact here; in binary64 a positive subnormal energy makes
    [energy_kwh / 1000] zero and the division raises. *)
Definition calculate_average_price (energy_kwh cost_eur : Q) : result Q :=
  if Qlt_le_dec 0 energy_kwh then
    bind (py_div energy_kwh 1000) (fun mwh => py_div cost_eur mwh)
  else Ok 0.

(** The expression [cost / (energy / 1000) if energy > 0 else 0] that
    [summarize_results] evaluates for each of its five average prices. *)
Definition summary_average (cost energy : Q) : result Q :=
  if Qlt_le_dec 0 energy then
    bind (py_div energy 1000) (fun mwh => py_div cost mwh)
  else Ok 0.

(** ** Fleet generation and the main run *)

(** What [initialize_fleet] samples for one candidate vehicle.  The sampling
    itself (how many candidates, which distributions) is outside the model:
    the candidates arrive as a list, in generation order. *)
Record draw := mkDraw {
  draw_id : string;
  draw_day : Z;
  draw_arrival : Z;
  draw_departure : Z;
  draw_return_soc : Q
}.

(** The guard and dict literal that follow every sampling site. *)
Definition make_vehicle (self : optimizer) (d : draw) : option vehicle :=
  let energy_needed := (min_soc_target self - draw_return_soc d) * ev_capacity self in
  let hours := inject_Z (draw_departure d - draw_arrival d) / 60 in
  if Qlt_le_dec 0 energy_needed then
    if Qlt_le_dec 0 hours then
      Some {| veh_id := draw_id d; day := draw_day d;
              arrival_time := draw_arrival d; departure_time := draw_departure d;
              return_soc := draw_return_soc d;
              target_soc := min_soc_target self;
              current_soc := draw_return_soc d;
              capacity_kwh := ev_capacity self;
              min_charge_kw := cfg_min_charge_kw self;
              max_charge_kw := cfg_max_charge_kw self;
              charging_schedule := ∅;
              energy_needed_kwh := energy_needed;
              charging_hours := hours |}
    else None
  else None.

(** [self.vehicles.sort(key=lambda x: x['arrival_time'])], stable. *)
Fixpoint insert_by_arrival (x : vehicle) (l : list vehicle) : list vehicle :=
  match l with
  | [] => [x]
  | y :: l' =>
      if (arrival_time x <=? arrival_time y)%Z then x :: y :: l'
      else y :: insert_by_arrival x l'
  end.

Fixpoint sort_by_arrival (l : list vehicle) : list vehicle :=
  match l with
  | [] => []
  | x :: l' => insert_by_arrival x (sort_by_arrival l')
  end.

Definition initialize_fleet (draws : list draw) (self : optimizer) : optimizer :=
  set_vehicles (sort_by_arrival (omap (make_vehicle self) draws)) self.

(** [main], up to the two strategy runs; plotting, summary and export follow. *)
Definition main (sort_values : list Baseline.row -> list Baseline.row)
           (FLEET_SIZE SIMULATION_DAYS SIMULATION_START : Z) (WORKDAYS_ONLY : bool)
           (DAM_ALLOCATION : Q) (dam idm15 idm60 : price_table) (draws : list draw)
  : result (list Baseline.row * list opt_row * optimizer) :=
  bind (init FLEET_SIZE 47 (15 # 10) 11 (9 # 10) WORKDAYS_ONLY) (fun optimizer =>
  let optimizer := load_market_data dam idm15 idm60 optimizer in
  let simulation_end := (SIMULATION_START + SIMULATION_DAYS * 1440)%Z in
  let optimizer := initialize_fleet draws optimizer in
  let '(baseline, optimizer, _) :=
    baseline_strategy sort_values optimizer SIMULATION_START (Some simulation_end) in
  let '(optimized, optimizer, _) :=
    optimized_strategy optimizer SIMULATION_START (Some simulation_end) DAM_ALLOCATION in
  Ok (baseline, optimized, optimizer)).


(** ** Probability tables and sampling *)


(** A row of a PMF DataFrame.  [bin] stands for the two columns that
    delimit the bin (start and end time, or start and end SOC), which
    [set_manual_pmfs] computes from the dict key alone. *)
Record pmf_row (B : Type) := mkPmfRow {
  bin : B;
  probability : Q;
  cum_probability : Q
}.
Arguments mkPmfRow {B} bin probability cum_probability.
Arguments bin {B} p.
Arguments probability {B} p.
Arguments cum_probability {B} p.

(** [pd.DataFrame(data, columns=[..., 'probability'])] followed by
    [pmf['cum_probability'] = pmf['probability'].cumsum()]; [acc] is the
    running total before the first row.  The running total is exact here;
    in binary64 it carries round-off, and the column of a normalized PMF
    can end just below 100. *)
Fixpoint pmf_rows {B : Type} (acc : Q) (probs : list (B * Q)) : list (pmf_row B) :=
  match probs with
  | [] => []
  | kv :: rest => mkPmfRow (fst kv) (snd kv) (acc + snd kv) :: pmf_rows (acc + snd kv) rest
  end.

Definition build_pmf {B : Type} (probs : list (B * Q)) : list (pmf_row B) := pmf_rows 0 probs.

(** [np.searchsorted(a, v)] on an ascending array: the first index whose
    element is not below [v], the length when there is none.  The library
    bisects, and on an array that is not ascending it can return another
    index; what is stated about sampling is stated for ascending
    cumulative columns. *)
Fixpoint searchsorted (a : list Q) (v : Q) : nat :=
  match a with
  | [] => O
  | x :: a' => if Qle_bool v x then O else S (searchsorted a' v)
  end.

(** [_sample_from_pmf(pmf, rand_val)] with the random value given.
    [None] is the [IndexError] of [pmf.iloc[-1]] on an empty DataFrame. *)
Definition _sample_from_pmf {B : Type} (pmf : list (pmf_row B)) (rand_val : Q)
  : option (pmf_row B) :=
  let idx := searchsorted (List.map cum_probability pmf) rand_val in
  let idx := if (length pmf <=? idx)%nat then (length pmf - 1)%nat else idx in
  pmf !! idx.

(** ** Fleet bookkeeping *)

(** [reset_vehicle_states]. *)
Definition reset_vehicle_states (self : optimizer) : optimizer :=
  set_vehicles (List.map reset_vehicle (vehicles self)) self.

(** [calculate_fleet_energy_needs]. *)
Definition calculate_fleet_energy_needs (self : optimizer) : Q :=
  foldl (fun total_energy_needed v =>
           let energy_needed := (target_soc v - return_soc v) * capacity_kwh v in
           if Qlt_le_dec 0 energy_needed then total_energy_needed + energy_needed
           else total_energy_needed)
        0 (vehicles self).

(** ** IDM usage statistics *)

(** The ['idm_type'] of a schedule entry that [analyze_idm_market_usage]
    counts: a dict whose ['source'] is ['IDM'] or ['MIXED']. *)
Definition counted_idm_type (schedule : sched_entry) : option idm_type :=
  match schedule with
  | SrcIDM _ ty => Some ty
  | SrcMIXED _ _ ty => Some ty
  | Hourly _ => None
  | SrcDAM _ => None
  end.

Record vehicle_counts := mkVehicleCounts {
  only_15min : nat;
  only_60min : nat;
  both : nat;
  none : nat
}.

Record slot_counts := mkSlotCounts {
  slots_15min : nat;
  slots_60min : nat
}.

(** The inner loop over one vehicle's schedule: the two flags and the slot
    counters. *)
Definition scan_entry (st : bool * bool * slot_counts) (schedule : sched_entry)
  : bool * bool * slot_counts :=
  let '(used_15min, used_60min, sc) := st in
  match counted_idm_type schedule with
  | Some Idm15min => (true, used_60min, mkSlotCounts (slots_15min sc + 1) (slots_60min sc))
  | Some Idm60min => (used_15min, true, mkSlotCounts (slots_15min sc) (slots_60min sc + 1))
  | None => st
  end.

(** The body of the loop over the vehicles. *)
Definition scan_vehicle (st : vehicle_counts * slot_counts) (v : vehicle)
  : vehicle_counts * slot_counts :=
  let '(vc, sc) := st in
  let '(used_15min, used_60min, sc) :=
    foldl scan_entry (false, false, sc) ((map_to_list (charging_schedule v)).*2) in
  (if used_15min && used_60min then
     mkVehicleCounts (only_15min vc) (only_60min vc) (both vc + 1) (none vc)
   else if used_15min then
     mkVehicleCounts (only_15min vc + 1) (only_60min vc) (both vc) (none vc)
   else if used_60min then
     mkVehicleCounts (only_15min vc) (only_60min vc + 1) (both vc) (none vc)
   else
     mkVehicleCounts (only_15min vc) (only_60min vc) (both vc) (none vc + 1),
   sc).

(** [analyze_idm_market_usage], without its printing. *)
Definition analyze_idm_market_usage (self : optimizer) : vehicle_counts * slot_counts :=
  foldl scan_vehicle (mkVehicleCounts 0 0 0 0, mkSlotCounts 0 0) (vehicles self).

(** ** Binary64 replay of single fragments *)

(** The fragments below are the same source lines as their counterparts
    over [Q], written on primitive binary64 numbers, for a slot that holds
    one vehicle. *)
Module F64.
Import PrimFloat FloatOps SpecFloat.

(** A Python [int] used as a float operand; exact below 2^53. *)
Definition of_Z (z : Z) : float := SF2Prim (binary_normalize prec emax z 0 false).

(** The float a decimal literal [n/d] denotes: the binary64 number nearest
    to the quotient, which is what the correctly rounded division gives. *)
Definition lit (n : Z) (d : positive) : float := (of_Z n / of_Z (Zpos d))%float.

(** The exact value of a finite float. *)
Definition to_Q (x : float) : option Q :=
  match Prim2SF x with
  | S754_zero _ => Some 0
  | S754_finite s m e =>
      let n := if s then Z.neg m else Z.pos m in
      Some (if (0 <=? e)%Z then inject_Z (n * 2 ^ e) else n # (2 ^ Z.to_pos (- e)))
  | S754_infinity _ => None
  | S754_nan => None
  end.

(** Float [x] is finite and its exact value is [q]. *)
Definition exactly (x : float) (q : Q) : Prop :=
  match to_Q x with
  | Some v => v == q
  | None => False
  end.

(** [int(x)]: truncation toward zero; [None] where Python raises (NaN,
    infinities). *)
Definition py_int (x : float) : option Z :=
  match to_Q x with
  | Some q => Some (Z.quot (Qnum q) (Zpos (Qden q)))
  | None => None
  end.

(** [min(a, b)]. *)
Definition py_min (a b : float) : float := if (b <? a)%float then b else a.

(** Phase 2 of one slot: [(dam_actual_kw, idm_actual_kw)]. *)
Definition split (total_power_kw DAM_ALLOCATION : float) : option (float * Z) :=
  let dam_target_kw := (total_power_kw * DAM_ALLOCATION)%float in
  let idm_target_kw := (total_power_kw - dam_target_kw)%float in
  match py_int (idm_target_kw / of_Z 100)%float with
  | Some k =>
      let idm_actual_kw := (k * 100)%Z in
      let dam_actual_kw := (total_power_kw - of_Z idm_actual_kw)%float in
      Some (dam_actual_kw, idm_actual_kw)
  | None => None
  end.

(** Phase 1 for one vehicle: the [(energy_kwh, power_kw)] it records, slot
    by slot of its price-ordered list. *)
Fixpoint consume (max_charge_kw : float) (time_prices : list Z) (remaining_energy_kwh : float)
  : list (float * float) :=
  match time_prices with
  | [] => []
  | _ :: rest =>
      if (remaining_energy_kwh <=? of_Z 0)%float then []
      else
        let max_energy_per_period := (max_charge_kw * lit 25 100)%float in
        let charge_amount_kwh := py_min max_energy_per_period remaining_energy_kwh in
        let charge_power_kw := (charge_amount_kwh / lit 25 100)%float in
        if (of_Z 0 <? charge_amount_kwh)%float then
          (charge_amount_kwh, charge_power_kw)
            :: consume max_charge_kw rest (remaining_energy_kwh - charge_amount_kwh)%float
        else consume max_charge_kw rest remaining_energy_kwh
  end.



(** The guards of [validate_parameters]; [true] when none fires. *)
Definition validate_parameters (fleet_size : Z)
           (ev_capacity min_charge_kw max_charge_kw min_soc_target : float) : bool :=
  if (fleet_size <=? 0)%Z then false
  else if (ev_capacity <=? of_Z 0)%float then false
  else if (min_charge_kw <? of_Z 0)%float || (max_charge_kw <=? of_Z 0)%float
          || (max_charge_kw <? min_charge_kw)%float then false
  else if (min_soc_target <=? of_Z 0)%float || (of_Z 1 <? min_soc_target)%float then false
  else true.

End F64.

(** ** The split under rounded arithmetic *)

(** * Vocabulary of the properties *)

(** What the phase-2 loop does to one row. *)
Definition book_slot (DAM_ALLOCATION : Q) (needs : gmap Z slot_need) (r : opt_row) : opt_row :=
  let slot_needs := default empty_need (needs !! Time r) in
  match slot_vehicles slot_needs with
  | [] => r
  | _ :: _ => allocate_slot DAM_ALLOCATION slot_needs r
  end.

(** The same, with the slot's needs record given. *)
Definition booked (a : Q) (need : slot_need) (r : opt_row) : opt_row :=
  match slot_vehicles need with
  | [] => r
  | _ :: _ => allocate_slot a need r
  end.

(** Sums over the vehicles of a slot, and the invariant phase 1 keeps. *)
Definition sum_power (l : list vdata) : Q := foldr (fun vd acc => power_kw vd + acc) 0 l.
Definition sum_energy (l : list vdata) : Q := foldr (fun vd acc => energy_kwh vd + acc) 0 l.

Definition vdata_ok (vd : vdata) : Prop :=
  0 < energy_kwh vd /\ power_kw vd == energy_kwh vd / quarter.

Definition need_ok (n : slot_need) : Prop :=
  total_power_kw n == sum_power (slot_vehicles n)
  /\ total_energy_kwh n == sum_energy (slot_vehicles n)
  /\ Forall vdata_ok (slot_vehicles n).

Definition needs_ok (needs : gmap Z slot_need) : Prop :=
  forall t n, needs !! t = Some n -> need_ok n.

(** A small fleet used to exercise the statements: two vehicles present
    for the first hour, prices for two hours, a 15-minute IDM quote for the
    first slot only. *)
Module Demo.
Definition vA : vehicle :=
  mkVehicle "A" 0 0 60 0 (125 # 1000) 0 100 (15 # 10) 50 ∅ (125 # 10) 1.
Definition vB : vehicle :=
  mkVehicle "B" 0 0 60 0 (5 # 10) 0 100 (15 # 10) 200 ∅ 50 1.
Definition dam : price_table := [(0%Z, 40); (60%Z, 30)].
Definition fleet : optimizer :=
  mkOptimizer 2 100 (15 # 10) 200 (9 # 10) false dam [(0%Z, 35)] [] [vA; vB] None None.
Definition horizon_end : option Z := Some 60%Z.
Definition half : Q := 1 # 2.
Definition first_row : opt_row :=
  hd (blank_row 0) (optimized_strategy fleet 0 horizon_end half).1.1.
End Demo.

(** The same fleet on a market whose 60-minute IDM quote for the first hour
    is below the 15-minute quote. *)
Module Demo60.
Definition fleet : optimizer :=
  mkOptimizer 2 100 (15 # 10) 200 (9 # 10) false Demo.dam [(0%Z, 45)] [(0%Z, 33)]
              [Demo.vA; Demo.vB] None None.
Definition first_row : opt_row :=
  hd (blank_row 0) (optimized_strategy fleet 0 Demo.horizon_end Demo.half).1.1.
End Demo60.

(** ** Round-off margins *)

(** An allowance for binary64 round-off in a quantity computed from a
    demand of [D] kW by a few operations: [D * 10^-15], several thousand
    units in the last place. *)
Definition round_off (D : Q) : Q := D * (1 # 1000000000000000).

(** The exact IDM share [(D - D * a) / 100], in steps of 100 kW, is not
    within round-off of a whole number of steps: there the truncation gives
    the same step count in binary64 as in exact arithmetic. *)
Definition clear_of_step (a D : Q) : Prop :=
  let x := (D - D * a) / 100 in
  inject_Z (Qfloor x) + round_off D <= x /\ x + round_off D <= inject_Z (Qfloor x) + 1.


(** Two schedule entries of the same kind with equal numbers. *)
Definition same_entry (e e' : sched_entry) : Prop :=
  match e, e' with
  | Hourly kw, Hourly kw' => kw == kw'
  | SrcDAM kw, SrcDAM kw' => kw == kw'
  | SrcIDM kw ty, SrcIDM kw' ty' => kw == kw' /\ ty = ty'
  | SrcMIXED d i ty, SrcMIXED d' i' ty' => d == d' /\ i == i' /\ ty = ty'
  | _, _ => False
  end.

(** Two markets that quote the same prices; the second has rows for the
    first hour only, so every later slot is a data gap. *)
Module Gap.
Definition flat (times : list Z) : price_table := List.map (fun t => (t, 40)) times.
Definition late : vehicle :=
  mkVehicle "late" 0 60 120 0 (5 # 10) 0 100 (15 # 10) 200 ∅ 50 1.
Definition full : optimizer :=
  mkOptimizer 2 100 (15 # 10) 200 (9 # 10) false
              (flat [0; 60]%Z) (flat (date_range 0 8 15)) (flat [0; 60]%Z)
              [Demo.vA; late] None None.
Definition gappy : optimizer :=
  mkOptimizer 2 100 (15 # 10) 200 (9 # 10) false
              (flat [0]%Z) (flat (date_range 0 4 15)) (flat [0]%Z)
              [Demo.vA; late] None None.
Definition horizon_end : option Z := Some 120%Z.
Definition gap_row : opt_row :=
  nth 4 (optimized_strategy gappy 0 horizon_end (5 # 100)).1.1 (blank_row 0).
End Gap.

(** Parameters [validate_parameters] accepts. *)
Definition valid_parameters (self : optimizer) : Prop :=
  (0 < fleet_size self)%Z
  /\ 0 < ev_capacity self
  /\ 0 <= cfg_min_charge_kw self
  /\ 0 < cfg_max_charge_kw self
  /\ cfg_min_charge_kw self <= cfg_max_charge_kw self
  /\ 0 < min_soc_target self /\ min_soc_target self <= 1.

(** Two optimizers quote the same market. *)
Definition same_market (self self' : optimizer) : Prop :=
  dam_prices self = dam_prices self'
  /\ idm_15_prices self = idm_15_prices self'
  /\ idm_60_prices self = idm_60_prices self'.

(** Two vehicles agree on everything but [current_soc] and
    [charging_schedule]. *)
Definition same_static (v v' : vehicle) : Prop := set_state 0 ∅ v = set_state 0 ∅ v'.

(** [vehicle['min_charge_kw'] = m]. *)
Definition set_min_charge (m : Q) (v : vehicle) : vehicle :=
  {| veh_id := veh_id v; day := day v;
     arrival_time := arrival_time v; departure_time := departure_time v;
     return_soc := return_soc v; target_soc := target_soc v;
     current_soc := current_soc v;
     capacity_kwh := capacity_kwh v;
     min_charge_kw := m; max_charge_kw := max_charge_kw v;
     charging_schedule := charging_schedule v;
     energy_needed_kwh := energy_needed_kwh v;
     charging_hours := charging_hours v |}.

(** Two vehicles agree on everything but [min_charge_kw]. *)
Definition same_but_min (v v' : vehicle) : Prop := set_min_charge 0 v = set_min_charge 0 v'.

(** The optimizer constructed with another [min_charge_kw]. *)
Definition with_min_charge (m : Q) (self : optimizer) : optimizer :=
  mkOptimizer (fleet_size self) (ev_capacity self) m (cfg_max_charge_kw self)
              (min_soc_target self) (workdays_only self)
              (dam_prices self) (idm_15_prices self) (idm_60_prices self)
              (vehicles self) (baseline_results self) (optimized_results self).

(** A vehicle that needs 0.1 kWh, so 0.4 kW for one slot, while its
    minimum charging power is 1.5 kW. *)
Module Trickle.
Definition small : vehicle :=
  mkVehicle "small" 0 0 60 0 (1 # 1000) 0 100 (15 # 10) 11 ∅ (1 # 10) 1.
Definition fleet : optimizer :=
  mkOptimizer 1 100 (15 # 10) 11 (1 # 1000) false Demo.dam [] [] [small] None None.
Definition after : optimizer := (optimized_strategy fleet 0 (Some 60%Z) (5 # 100)).1.2.
End Trickle.

(** ** Vocabulary of the demand projection *)





(** What vehicle [j] asks for in slot [t] of a needs table. *)
Definition entries (j : nat) (needs : gmap Z slot_need) (t : Z) : list vdata :=
  List.filter (fun vd => Nat.eqb (vehicle_ref vd) j)
              (slot_vehicles (default empty_need (needs !! t))).

(** What the greedy loop of one vehicle records, slot by slot:
    (time, energy in kWh, power in kW). *)
Fixpoint consume_trace (v : vehicle) (time_prices : list (Z * Q)) (remaining_energy_kwh : Q)
  : list (Z * Q * Q) :=
  match time_prices with
  | [] => []
  | (time, _) :: rest =>
      if Qlt_le_dec 0 remaining_energy_kwh then
        let charge_amount_kwh := py_min (max_charge_kw v * quarter) remaining_energy_kwh in
        if Qlt_le_dec 0 charge_amount_kwh then
          (time, charge_amount_kwh, charge_amount_kwh / quarter)
            :: consume_trace v rest (remaining_energy_kwh - charge_amount_kwh)
        else consume_trace v rest remaining_energy_kwh
      else []
  end.

(** The price-ordered slots phase 1 walks through for a vehicle. *)
Definition ranked_slots (self : optimizer) (schedule_times : list Z) (v : vehicle)
  : list (Z * Q) :=
  sort_by_price
    (List.map (fun t => (t, dam_price_at (priced_table self schedule_times) t))
              (valid_times schedule_times v)).

(** The trace of vehicle [v] in a run: empty when it needs no energy. *)
Definition vehicle_trace (self : optimizer) (schedule_times : list Z) (v : vehicle)
  : list (Z * Q * Q) :=
  let needed := (target_soc v - return_soc v) * capacity_kwh v in
  if Qlt_le_dec 0 needed then consume_trace v (ranked_slots self schedule_times v) needed
  else [].

(** Membership of a reference in a list of references is decidable. *)
#[local] Instance In_ref_dec (j : nat) (el : list nat) : Decision (In j el) :=
  List.in_dec Nat.eq_dec j el.

(** The records of a trace that fall into slot [t], as vehicle [j]'s. *)
Definition trace_at (t : Z) (j : nat) (trace : list (Z * Q * Q)) : list vdata :=
  List.map (fun x => mkVdata j (snd (fst x)) (snd x))
           (List.filter (fun x => (fst (fst x) =? t)%Z) trace).

(** Every slot of the grid has its record in the needs table. *)
Definition has_keys (times : list Z) (needs : gmap Z slot_need) : Prop :=
  forall t, In t times -> is_Some (needs !! t).


(** ** Vocabulary of the redistribution *)

(** What phase 3 of one slot does to vehicle [j]: it is charged once for
    each of its records in the slot. *)
Definition slot_effect (a : Q) (needs : gmap Z slot_need) (j : nat) (v : vehicle) (r : opt_row)
  : vehicle :=
  let need := default empty_need (needs !! Time r) in
  let total := total_power_kw need in
  if Qlt_le_dec 0 total then
    foldl (fun v vd =>
             charge_vehicle (Time r) (use_15_min_idm r)
                            (inject_Z (idm_actual_kw a total) / total)
                            (dam_actual_kw a total / total) (power_kw vd) v)
          v (List.filter (fun vd => Nat.eqb (vehicle_ref vd) j) (slot_vehicles need))
  else v.

(** The vehicle store after the phase-2/3 loop has processed the first [k]
    slots of a run; [k = 0] is the store right after the reset. *)
Definition pass_state (self : optimizer) (s : Z) (e : option Z) (a : Q) (k : nat)
  : list vehicle :=
  let times := optimized_schedule_times s (end_or_default s e) in
  let eligible := get_eligible_vehicles (vehicles self) s (end_or_default s e) in
  (allocate_slots a (run_needs self s e) (take k (priced_table self times))
                  (reset_eligible eligible (vehicles self))).1.2.




(** The entry a slot leaves in the schedule of a vehicle that has at most
    one record in it. *)
Definition slot_entry (a : Q) (needs : gmap Z slot_need) (j : nat) (r : opt_row)
  : option sched_entry :=
  let total := total_power_kw (default empty_need (needs !! Time r)) in
  match entries j needs (Time r) with
  | [] => None
  | vd :: _ =>
      schedule_entry (use_15_min_idm r)
                     (power_kw vd * (dam_actual_kw a total / total))
                     (power_kw vd * (inject_Z (idm_actual_kw a total) / total))
  end.


(** ** Vocabulary of the sampling distributions *)



(** ** Vocabulary of the fleet *)

(** A vehicle as [initialize_fleet] leaves it: it needs energy, it leaves
    after it arrives, and its state is the initial one. *)
Definition fresh_vehicle (self : optimizer) (v : vehicle) : Prop :=
  0 < energy_needed_kwh v
  /\ energy_needed_kwh v = (target_soc v - return_soc v) * capacity_kwh v
  /\ (arrival_time v < departure_time v)%Z
  /\ current_soc v = return_soc v
  /\ charging_schedule v = ∅
  /\ target_soc v = min_soc_target self
  /\ capacity_kwh v = ev_capacity self
  /\ max_charge_kw v = cfg_max_charge_kw self.

(** The state a vehicle has before any charging. *)
Definition initial_state (v : vehicle) : Prop :=
  current_soc v = return_soc v /\ charging_schedule v = ∅.

Definition arrives_before (v w : vehicle) : Prop := (arrival_time v <= arrival_time w)%Z.

(** Vehicle [v] was built from candidate [d]. *)
Definition built_from (d : draw) (v : vehicle) : Prop :=
  veh_id v = draw_id d /\ day v = draw_day d
  /\ arrival_time v = draw_arrival d /\ departure_time v = draw_departure d
  /\ return_soc v = draw_return_soc d.

(** Candidate [d] passes the guard of [initialize_fleet]: it needs energy
    and stays for a positive time. *)
Definition needs_charging (self : optimizer) (d : draw) : Prop :=
  0 < (min_soc_target self - draw_return_soc d) * ev_capacity self
  /\ (draw_arrival d < draw_departure d)%Z.

(** ** Vocabulary of the baseline *)


(** The rows of a baseline table at time [t]. *)
Definition rows_at (t : Z) (rows : list Baseline.row) : list Baseline.row :=
  List.filter (fun r => (Baseline.Time r =? t)%Z) rows.

(** A baseline sort may reorder rows but not invent them. *)
Definition keeps_rows (sort : list Baseline.row -> list Baseline.row) : Prop :=
  forall rows r, In r (sort rows) -> In r rows.

(** ** Vocabulary of rounded arithmetic *)


(** * Properties *)

Lemma py_min_le_l a b : py_min a b <= a.
Proof. unfold py_min. destruct (Qlt_le_dec b a); lra. Qed.


(** ** The table written by phase 2 *)


Lemma allocate_slots_table a needs rows vs :
  (allocate_slots a needs rows vs).1.1 = List.map (book_slot a needs) rows.
Proof.
  revert vs. induction rows as [|r rows IH]; intros vs; [reflexivity|].
  cbn [allocate_slots List.map]. unfold book_slot at 1.
  destruct (slot_vehicles (default empty_need (needs !! Time r))) as [|vd vds].
  - specialize (IH vs).
    destruct (allocate_slots a needs rows vs) as [[rows' vs'] out].
    simpl in *. by rewrite IH.
  - match goal with |- context [allocate_slots a needs rows ?s] => specialize (IH s);
      destruct (allocate_slots a needs rows s) as [[rows' vs'] out] end.
    simpl in *. by rewrite IH.
Qed.

Lemma optimized_table self s e a :
  (optimized_strategy self s e a).1.1 =
  List.map (fun t => calculate_costs
                       (book_slot a (run_needs self s e) (load_prices self (blank_row t))))
           (optimized_schedule_times s (end_or_default s e)).
Proof.
  unfold optimized_strategy, run_needs.
  match goal with |- context [allocate_slots a ?n ?r ?v] =>
    pose proof (allocate_slots_table a n r v) as H;
    destruct (allocate_slots a n r v) as [[rows' vs'] out] end.
  simpl in *. subst rows'. unfold priced_table.
  rewrite !List.map_map. reflexivity.
Qed.

(** ** Invariant of the needs table built by phase 1 *)


Lemma sum_power_app l1 l2 : sum_power (l1 ++ l2) == sum_power l1 + sum_power l2.
Proof. induction l1 as [|x l1 IH]; simpl; [lra|]. rewrite IH. lra. Qed.

Lemma sum_energy_app l1 l2 : sum_energy (l1 ++ l2) == sum_energy l1 + sum_energy l2.
Proof. induction l1 as [|x l1 IH]; simpl; [lra|]. rewrite IH. lra. Qed.

Lemma vdata_ok_power vd : vdata_ok vd -> 0 < power_kw vd.
Proof.
  intros [He Hp]. rewrite Hp. unfold quarter.
  apply Qlt_shift_div_l; lra.
Qed.

Lemma sum_power_nonneg l : Forall vdata_ok l -> 0 <= sum_power l.
Proof.
  induction 1 as [|vd l Hvd _ IH]; cbn [sum_power foldr]; [lra|].
  pose proof (vdata_ok_power vd Hvd). unfold sum_power in IH. lra.
Qed.

Lemma sum_power_pos l : Forall vdata_ok l -> l <> [] -> 0 < sum_power l.
Proof.
  intros Hall Hne. destruct l as [|x l]; [done|]. clear Hne.
  inversion Hall as [|? ? Hx Hl]; subst. simpl.
  assert (0 <= sum_power l).
  { clear Hx Hall. induction Hl as [|y l Hy Hl IH]; simpl; [lra|].
    apply vdata_ok_power in Hy. lra. }
  apply vdata_ok_power in Hx. lra.
Qed.

Lemma add_need_ok j e p n :
  0 < e -> p == e / quarter -> need_ok n -> need_ok (add_need j e p n).
Proof.
  intros He Hp (Hpow & Hen & Hall). unfold need_ok, add_need; simpl.
  rewrite sum_power_app, sum_energy_app, Hpow, Hen. simpl.
  repeat split; try lra.
  apply Forall_app; split; [assumption|].
  constructor; [|constructor]. split; assumption.
Qed.

Lemma needs_ok_alter j e p t needs :
  0 < e -> p == e / quarter -> needs_ok needs ->
  needs_ok (alter (add_need j e p) t needs).
Proof.
  intros He Hp Hok t' n. rewrite lookup_alter.
  destruct (decide (t = t')) as [->|Hne].
  - destruct (needs !! t') as [n0|] eqn:E; simpl; [|discriminate].
    intros [= <-]. apply add_need_ok; eauto.
  - apply Hok.
Qed.

Lemma init_needs_lookup times t n :
  init_needs times !! t = Some n -> n = empty_need.
Proof.
  unfold init_needs.
  assert (G : forall (m : gmap Z slot_need),
             (forall n', m !! t = Some n' -> n' = empty_need) ->
             foldl (fun needs time => <[time := empty_need]> needs) m times !! t = Some n ->
             n = empty_need).
  { induction times as [|t0 times IH]; intros m Hm; simpl; [apply Hm|].
    apply IH. intros n'. rewrite lookup_insert.
    destruct (decide (t0 = t)); [by intros [= <-]|apply Hm]. }
  apply G. intros n'. by rewrite lookup_empty.
Qed.

Lemma init_needs_ok times : needs_ok (init_needs times).
Proof.
  intros t n H. apply init_needs_lookup in H as ->.
  unfold need_ok, empty_need; simpl. repeat split; try lra. constructor.
Qed.

Lemma consume_ok j v tps rem needs : needs_ok needs -> needs_ok (consume j v tps rem needs).
Proof.
  revert rem needs. induction tps as [|[t p] tps IH]; intros rem needs Hok; simpl; [done|].
  destruct (Qlt_le_dec 0 rem); [|done].
  destruct (Qlt_le_dec 0 (py_min (max_charge_kw v * quarter) rem)); [|by apply IH].
  apply IH. apply needs_ok_alter; [assumption|reflexivity|assumption].
Qed.

Lemma project_vehicle_ok times tbl vs needs j :
  needs_ok needs -> needs_ok (project_vehicle times tbl vs needs j).
Proof.
  intros Hok. unfold project_vehicle.
  destruct (vs !! j) as [v|]; [|done].
  destruct (Qlt_le_dec 0 _); [|done].
  destruct (valid_times times v); [done|].
  by apply consume_ok.
Qed.

Lemma phase1_ok times tbl vs eligible : needs_ok (phase1 times tbl vs eligible).
Proof.
  unfold phase1. generalize (init_needs_ok times). generalize (init_needs times).
  induction eligible as [|j el IH]; intros needs Hok; simpl; [done|].
  apply IH. by apply project_vehicle_ok.
Qed.

Lemma run_needs_ok self s e : needs_ok (run_needs self s e).
Proof. apply phase1_ok. Qed.

Lemma default_need_ok needs t : needs_ok needs -> need_ok (default empty_need (needs !! t)).
Proof.
  intros Hok. destruct (needs !! t) as [n|] eqn:E; simpl; [by eapply Hok|].
  unfold need_ok, empty_need; simpl. repeat split; try lra. constructor.
Qed.

(** ** The fleet-level split of one slot *)

Lemma py_int_floor x : 0 <= x -> py_int x = Qfloor x.
Proof.
  destruct x as [n d]. unfold Qle, py_int, Qfloor; simpl. intros H.
  apply Z.quot_div_nonneg; lia.
Qed.

Lemma Qfloor_nonneg x : 0 <= x -> (0 <= Qfloor x)%Z.
Proof. intros H. change 0%Z with (Qfloor 0). by apply Qfloor_resp_le. Qed.

Lemma idm_target_nonneg a D : 0 <= a -> a <= 1 -> 0 <= D -> 0 <= idm_target_kw a D / 100.
Proof.
  intros Ha Ha' HD. unfold idm_target_kw, dam_target_kw.
  apply Qle_shift_div_l; [lra|].
  assert (0 <= D * (1 - a)) by (apply Qmult_le_0_compat; lra). lra.
Qed.

Lemma idm_actual_floor a D :
  0 <= a -> a <= 1 -> 0 <= D ->
  idm_actual_kw a D = (100 * Qfloor ((D - D * a) / 100))%Z.
Proof.
  intros Ha Ha' HD. unfold idm_actual_kw.
  rewrite py_int_floor by (by apply idm_target_nonneg).
  unfold idm_target_kw, dam_target_kw. lia.
Qed.

Lemma idm_actual_bounds a D :
  0 <= a -> a <= 1 -> 0 <= D ->
  (0 <= idm_actual_kw a D)%Z /\ inject_Z (idm_actual_kw a D) <= D.
Proof.
  intros Ha Ha' HD.
  pose proof (idm_target_nonneg a D Ha Ha' HD) as Hx.
  unfold idm_actual_kw. rewrite py_int_floor by assumption.
  pose proof (Qfloor_nonneg _ Hx) as Hf.
  pose proof (Qfloor_le (idm_target_kw a D / 100)) as Hle.
  split; [lia|].
  rewrite inject_Z_mult.
  assert (idm_target_kw a D <= D).
  { unfold idm_target_kw, dam_target_kw.
    assert (0 <= D * a) by (apply Qmult_le_0_compat; lra). lra. }
  assert (idm_target_kw a D / 100 * 100 == idm_target_kw a D) by (field).
  change (inject_Z 100) with 100. lra.
Qed.

(** Every row of the final table is the booked, priced, costed blank row of
    its slot. *)
Lemma optimized_row_inv self s e a r :
  In r (optimized_strategy self s e a).1.1 ->
  r = calculate_costs (book_slot a (run_needs self s e) (load_prices self (blank_row (Time r)))).
Proof.
  rewrite optimized_table. intros (t & <- & _)%in_map_iff.
  replace (Time (calculate_costs _)) with t; [reflexivity|].
  unfold book_slot. cbn [load_prices blank_row Time].
  by destruct (slot_vehicles _).
Qed.


Lemma slot_split_row a need self t :
  0 <= a -> a <= 1 -> need_ok need ->
  let r := calculate_costs (booked a need (load_prices self (blank_row t))) in
  let D := total_charge_kw r in
  let idm := (100 * Qfloor ((D - D * a) / 100))%Z in
  D == sum_power (slot_vehicles need)
  /\ D == dam_charge_kw r + idm_15_charge_kw r + idm_60_charge_kw r
  /\ (exists k : Z, idm_15_charge_kw r == inject_Z (100 * k))
  /\ (exists k : Z, idm_60_charge_kw r == inject_Z (100 * k))
  /\ (0 < D ->
      dam_charge_kw r == D - inject_Z idm
      /\ (idm_15_charge_kw r == inject_Z idm /\ idm_60_charge_kw r == 0
          \/ idm_15_charge_kw r == 0 /\ idm_60_charge_kw r == inject_Z idm)
      /\ (idm = 0%Z -> dam_charge_kw r == D)).
Proof.
  intros Ha Ha' (Hpow & _ & Hall). unfold booked.
  destruct (slot_vehicles need) as [|vd vds] eqn:Hvs.
  { cbn. repeat split; try lra; try (exists 0%Z; reflexivity).
    all: intros; exfalso; lra. }
  assert (HD : 0 < total_power_kw need).
  { rewrite Hpow. apply sum_power_pos; [assumption|discriminate]. }
  assert (HD' : 0 <= total_power_kw need) by lra.
  destruct (idm_actual_bounds a _ Ha Ha' HD') as [Hlo Hhi].
  pose proof (idm_actual_floor a _ Ha Ha' HD') as Hfl.
  cbn [calculate_costs allocate_slot load_prices blank_row total_charge_kw dam_charge_kw
       idm_15_charge_kw idm_60_charge_kw idm_15_price idm_60_price].
  rewrite <- Hfl.
  set (idm := idm_actual_kw a (total_power_kw need)) in *.
  unfold dam_actual_kw. fold idm.
  set (u := use_15_min_idm _).
  assert (Hz : (0 <? idm)%Z = false -> inject_Z idm == 0).
  { intros Hf. apply Z.ltb_ge in Hf. assert (idm = 0%Z) as -> by lia. reflexivity. }
  assert (Hk : exists k : Z, inject_Z idm == inject_Z (100 * k)).
  { exists (Qfloor ((total_power_kw need - total_power_kw need * a) / 100)).
    by rewrite Hfl. }
  assert (H0 : exists k : Z, 0 == inject_Z (100 * k)) by (by exists 0%Z).
  split; [exact Hpow|].
  destruct (Qlt_le_dec 0 (total_power_kw need - inject_Z idm)) as [Hd|Hd];
    destruct (0 <? idm)%Z eqn:Hi; destruct u; cbn [andb negb];
    try specialize (Hz eq_refl);
    (split; [lra|]); (split; [assumption|]); (split; [assumption|]);
    intros _; (split; [lra|]);
    (split; [first [left; split; lra | right; split; lra]|]);
    intros Hi0; rewrite Hi0 in *; change (inject_Z 0) with 0 in *; lra.
Qed.

Lemma idm_actual_zero a : idm_actual_kw a 0 = 0%Z.
Proof. destruct a as [n d]. reflexivity. Qed.

Lemma market_choice_row a need self t :
  let r := calculate_costs (booked a need (load_prices self (blank_row t))) in
  (slot_vehicles need = [] -> total_charge_kw r = 0)
  /\ (slot_vehicles need <> [] ->
      idm_charge_kw r == inject_Z (Z.max 0 (idm_actual_kw a (total_charge_kw r))))
  /\ (idm_15_price r <= idm_60_price r ->
      idm_15_charge_kw r = idm_charge_kw r /\ idm_60_charge_kw r = 0)
  /\ (~ idm_15_price r <= idm_60_price r ->
      idm_60_charge_kw r = idm_charge_kw r /\ idm_15_charge_kw r = 0)
  /\ (idm_15_charge_kw r = 0 \/ idm_60_charge_kw r = 0).
Proof.
  unfold booked. destruct (slot_vehicles need) as [|vd vds] eqn:Hvs.
  { cbn. repeat split; try reflexivity; try done. by left. }
  cbn [calculate_costs allocate_slot load_prices blank_row total_charge_kw idm_charge_kw
       idm_15_charge_kw idm_60_charge_kw idm_15_price idm_60_price].
  set (idm := idm_actual_kw a (total_power_kw need)).
  unfold use_15_min_idm. cbn [load_prices blank_row idm_15_price idm_60_price].
  set (p15 := resolve_idm_price (idm_15_prices self) _ _ _).
  set (p60 := resolve_idm_price (idm_60_prices self) _ _ _).
  split; [done|]. split.
  { intros _. destruct (0 <? idm)%Z eqn:Hi.
    - apply Z.ltb_lt in Hi. by rewrite Z.max_r by lia.
    - apply Z.ltb_ge in Hi. by rewrite Z.max_l by lia. }
  destruct (Qle_bool p15 p60) eqn:Hp.
  - apply Qle_bool_iff in Hp.
    destruct (0 <? idm)%Z; cbn [andb negb]; repeat split; try done; by right.
  - assert (~ p15 <= p60) by (intros Hle; apply Qle_bool_iff in Hle; congruence).
    destruct (0 <? idm)%Z; cbn [andb negb]; repeat split; try done; by left.
Qed.

(** C1.  With a DAM fraction in [0, 1], every row of the optimized schedule
    carries the aggregate demand D of its slot, split so that
    total = dam + idm_15 + idm_60, each IDM column a multiple of 100 kW and
    one of them zero; when both are zero DAM takes all of D.  When D is
    positive and the exact IDM share is clear of a 100 kW step by more than
    round-off, the IDM share is floor((D - D * DAM_ALLOCATION) / 100) * 100,
    booked whole on one IDM column, and DAM takes D minus that share. *)
Theorem slot_split_invariant self s e a r :
  0 <= a -> a <= 1 ->
  In r (optimized_strategy self s e a).1.1 ->
  let D := total_charge_kw r in
  let idm := (100 * Qfloor ((D - D * a) / 100))%Z in
  D == sum_power (slot_vehicles (default empty_need (run_needs self s e !! Time r)))
  /\ D == dam_charge_kw r + idm_15_charge_kw r + idm_60_charge_kw r
  /\ (exists k : Z, idm_15_charge_kw r == inject_Z (100 * k))
  /\ (exists k : Z, idm_60_charge_kw r == inject_Z (100 * k))
  /\ (idm_15_charge_kw r == 0 \/ idm_60_charge_kw r == 0)
  /\ (idm_15_charge_kw r == 0 -> idm_60_charge_kw r == 0 -> dam_charge_kw r == D)
  /\ (0 < D -> clear_of_step a D ->
      dam_charge_kw r == D - inject_Z idm
      /\ (idm_15_charge_kw r == inject_Z idm /\ idm_60_charge_kw r == 0
          \/ idm_15_charge_kw r == 0 /\ idm_60_charge_kw r == inject_Z idm)).
Proof.
  intros Ha Ha' Hin.
  pose proof (optimized_row_inv _ _ _ _ _ Hin) as Hr.
  pose proof (slot_split_row a _ self (Time r) Ha Ha'
                (default_need_ok _ (Time r) (run_needs_ok self s e))) as H.
  pose proof (market_choice_row a (default empty_need (run_needs self s e !! Time r))
                self (Time r)) as G.
  change (book_slot a (run_needs self s e) (load_prices self (blank_row (Time r))))
    with (booked a (default empty_need (run_needs self s e !! Time r))
                 (load_prices self (blank_row (Time r)))) in Hr.
  rewrite <- Hr in H, G. cbn zeta in H, G |- *.
  destruct H as (H1 & H2 & H3 & H4 & H5). destruct G as (_ & _ & _ & _ & G5).
  split; [exact H1|]. split; [exact H2|]. split; [exact H3|]. split; [exact H4|].
  split; [destruct G5 as [-> | ->]; [left|right]; reflexivity|].
  split; [intros Z15 Z60; lra|].
  intros HD _. destruct (H5 HD) as (H6 & H7 & _). split; assumption.
Qed.

Lemma slot_split_invariant_witness :
  0 <= Demo.half /\ Demo.half <= 1
  /\ In Demo.first_row (optimized_strategy Demo.fleet 0 Demo.horizon_end Demo.half).1.1
  /\ 0 < total_charge_kw Demo.first_row
  /\ clear_of_step Demo.half (total_charge_kw Demo.first_row)
  /\ dam_charge_kw Demo.first_row == 150.
Proof.
  assert (H1 : 0 <= Demo.half) by (unfold Demo.half; lra).
  assert (H2 : Demo.half <= 1) by (unfold Demo.half; lra).
  assert (H3 : In Demo.first_row
                  (optimized_strategy Demo.fleet 0 Demo.horizon_end Demo.half).1.1)
    by (vm_compute; left; reflexivity).
  assert (H4 : 0 < total_charge_kw Demo.first_row) by (vm_compute; reflexivity).
  assert (H5 : clear_of_step Demo.half (total_charge_kw Demo.first_row))
    by (vm_compute; split; discriminate).
  split; [exact H1|]. split; [exact H2|]. split; [exact H3|].
  split; [exact H4|]. split; [exact H5|].
  destruct (slot_split_invariant _ _ _ _ _ H1 H2 H3) as (_ & _ & _ & _ & _ & _ & H).
  rewrite (proj1 (H H4 H5)). vm_compute. reflexivity.
Defined.

(** At a demand of 625 kW and DAM_ALLOCATION = 0.68 the exact IDM share is
    200 kW, a whole number of steps.  In binary64 the product 625 * 0.68 is
    425.00000000000006, the quotient falls just below 2, and the program
    books 100 kW on IDM and 525 kW on DAM. *)
Lemma idm_share_below_exact_floor :
  match F64.split (F64.of_Z 625) (F64.lit 68 100) with
  | Some (dam_actual_kw, idm_actual_kw) =>
      F64.exactly dam_actual_kw 525 /\ idm_actual_kw = 100%Z
  | None => False
  end
  /\ (100 * Qfloor ((625 - 625 * (68 # 100)) / 100))%Z = 200%Z
  /\ ~ clear_of_step (68 # 100) 625.
Proof.
  split; [vm_compute; split; reflexivity|]. split; [reflexivity|].
  intros [H _]. vm_compute in H. apply H. reflexivity.
Qed.

(** ** Choice of the IDM sub-market *)

(** C5.  Every row carries the demand D of its slot, split into the DAM
    power and the slot's IDM power [idm_charge_kw], and the whole IDM power
    sits on the 15-minute column exactly when the IDM-15 price is at most the
    IDM-60 price, ties included, and on the 60-minute column otherwise; one
    of the two columns is always zero.  IDM power is booked whenever the IDM
    share of the demand exceeds one 100 kW step by more than round-off. *)
Theorem idm_market_selection self s e a r :
  0 <= a -> a <= 1 ->
  In r (optimized_strategy self s e a).1.1 ->
  let D := sum_power (slot_vehicles (default empty_need (run_needs self s e !! Time r))) in
  total_charge_kw r == D
  /\ D == dam_charge_kw r + idm_charge_kw r
  /\ idm_charge_kw r == idm_15_charge_kw r + idm_60_charge_kw r
  /\ (idm_15_price r <= idm_60_price r ->
      idm_15_charge_kw r = idm_charge_kw r /\ idm_60_charge_kw r = 0)
  /\ (~ idm_15_price r <= idm_60_price r ->
      idm_60_charge_kw r = idm_charge_kw r /\ idm_15_charge_kw r = 0)
  /\ (idm_15_charge_kw r = 0 \/ idm_60_charge_kw r = 0)
  /\ (100 + round_off D <= D * (1 - a) -> 0 < idm_charge_kw r).
Proof.
  intros Ha Ha' Hin.
  pose proof (optimized_row_inv _ _ _ _ _ Hin) as Hr.
  pose proof (slot_split_row a _ self (Time r) Ha Ha'
                (default_need_ok _ (Time r) (run_needs_ok self s e))) as H.
  pose proof (market_choice_row a (default empty_need (run_needs self s e !! Time r))
                self (Time r)) as G.
  change (book_slot a (run_needs self s e) (load_prices self (blank_row (Time r))))
    with (booked a (default empty_need (run_needs self s e !! Time r))
                 (load_prices self (blank_row (Time r)))) in Hr.
  rewrite <- Hr in H, G. cbn zeta in H, G |- *.
  destruct H as (H1 & H2 & _ & _ & H5). destruct G as (_ & _ & G3 & G4 & G5).
  set (D := sum_power _) in *.
  assert (Hsum : idm_charge_kw r == idm_15_charge_kw r + idm_60_charge_kw r).
  { destruct (Qlt_le_dec (idm_60_price r) (idm_15_price r)) as [Hlt|Hle].
    - destruct (G4 (Qlt_not_le _ _ Hlt)) as [-> ->]. ring.
    - destruct (G3 Hle) as [-> ->]. ring. }
  split; [exact H1|]. split; [lra|]. split; [exact Hsum|].
  split; [exact G3|]. split; [exact G4|]. split; [exact G5|].
  intros Hstep.
  assert (HD0 : 0 <= D).
  { apply sum_power_nonneg.
    apply (default_need_ok _ (Time r) (run_needs_ok self s e)). }
  assert (Hslack : 0 <= round_off D).
  { unfold round_off. apply Qmult_le_0_compat; [exact HD0|discriminate]. }
  assert (HDa : 0 <= D * a) by (apply Qmult_le_0_compat; lra).
  assert (HD : 0 < total_charge_kw r) by lra.
  destruct (H5 HD) as (_ & Hcols & _).
  assert (Hfl : (1 <= Qfloor ((total_charge_kw r - total_charge_kw r * a) / 100))%Z).
  { change 1%Z with (Qfloor 1). apply Qfloor_resp_le.
    apply Qle_shift_div_l; [lra|]. rewrite H1. lra. }
  assert (Hidm : inject_Z 100
                 <= inject_Z (100 * Qfloor ((total_charge_kw r - total_charge_kw r * a)
                                            / 100))).
  { rewrite <- Zle_Qle. lia. }
  change (inject_Z 100) with 100 in Hidm.
  set (X := inject_Z (100 * _)) in *. clearbody X.
  destruct Hcols as [[E1 E2]|[E1 E2]]; lra.
Qed.

Lemma idm_market_selection_witness :
  0 <= Demo.half /\ Demo.half <= 1
  /\ In Demo.first_row (optimized_strategy Demo.fleet 0 Demo.horizon_end Demo.half).1.1
  /\ In Demo60.first_row (optimized_strategy Demo60.fleet 0 Demo.horizon_end Demo.half).1.1
  /\ idm_15_price Demo.first_row <= idm_60_price Demo.first_row
  /\ ~ idm_15_price Demo60.first_row <= idm_60_price Demo60.first_row
  /\ (idm_15_charge_kw Demo.first_row = idm_charge_kw Demo.first_row
      /\ idm_60_charge_kw Demo.first_row = 0)
  /\ (idm_60_charge_kw Demo60.first_row = idm_charge_kw Demo60.first_row
      /\ idm_15_charge_kw Demo60.first_row = 0)
  /\ 0 < idm_charge_kw Demo.first_row
  /\ 0 < idm_charge_kw Demo60.first_row.
Proof.
  assert (H1 : 0 <= Demo.half) by (unfold Demo.half; lra).
  assert (H2 : Demo.half <= 1) by (unfold Demo.half; lra).
  assert (H3 : In Demo.first_row
                  (optimized_strategy Demo.fleet 0 Demo.horizon_end Demo.half).1.1)
    by (vm_compute; left; reflexivity).
  assert (H4 : In Demo60.first_row
                  (optimized_strategy Demo60.fleet 0 Demo.horizon_end Demo.half).1.1)
    by (vm_compute; left; reflexivity).
  assert (H5 : idm_15_price Demo.first_row <= idm_60_price Demo.first_row)
    by (vm_compute; discriminate).
  assert (H6 : ~ idm_15_price Demo60.first_row <= idm_60_price Demo60.first_row)
    by (vm_compute; intros H; apply H; reflexivity).
  destruct (idm_market_selection _ _ _ _ _ H1 H2 H3) as (_ & _ & _ & A15 & _ & _ & Apos).
  destruct (idm_market_selection _ _ _ _ _ H1 H2 H4) as (_ & _ & _ & _ & B60 & _ & Bpos).
  split; [exact H1|]. split; [exact H2|]. split; [exact H3|]. split; [exact H4|].
  split; [exact H5|]. split; [exact H6|].
  split; [exact (A15 H5)|]. split; [exact (B60 H6)|].
  split; [apply Apos|apply Bpos]; vm_compute; discriminate.
Defined.

(** ** Average price *)

(** The console line of [baseline_strategy] shows the quotient when
    energy was charged, and no number otherwise. *)
Lemma baseline_average_line charged rows :
  let sm := summarize_baseline charged rows in
  (0 < summary_energy sm ->
   exists p, summary_avg_price sm = Some p
             /\ p = summary_cost sm / summary_energy sm * 1000
             /\ p == summary_cost sm / (summary_energy sm / 1000))
  /\ (summary_energy sm <= 0 -> summary_avg_price sm = None).
Proof.
  unfold summarize_baseline; cbn.
  destruct (Qlt_le_dec 0 (column_sum Baseline.total_charge_kw rows)) as [H|H].
  - split; [|intros; exfalso; lra].
    intros _. eexists; split; [reflexivity|]. split; [reflexivity|]. field. lra.
  - split; [intros; exfalso; lra|reflexivity].
Qed.

Lemma baseline_summary_of_table sort self s e :
  (baseline_strategy sort self s e).2
  = summarize_baseline (charged_vehicles (baseline_strategy sort self s e).2)
                       (baseline_strategy sort self s e).1.1.
Proof.
  unfold baseline_strategy.
  destruct (foldl _ _ _) as [[b vs] c]. reflexivity.
Qed.

(** C8, as the code has it.  The summary of [baseline_strategy] takes the
    energy and the cost from the columns of the table it returns; when the
    energy is positive it reports total_cost / total_energy * 1000, which
    is total_cost / (total_energy / 1000), and when the energy is zero it
    reports no number ("N/A") and divides nothing.  On zero energy
    [calculate_average_price] and the expression of [summarize_results]
    give 0. *)
Theorem average_price_reporting sort self s e :
  let run := baseline_strategy sort self s e in
  let sm := run.2 in
  summary_energy sm = column_sum Baseline.total_charge_kw run.1.1
  /\ summary_cost sm = column_sum Baseline.dam_cost run.1.1
  /\ (0 < summary_energy sm ->
      exists p, summary_avg_price sm = Some p
                /\ p = summary_cost sm / summary_energy sm * 1000
                /\ p == summary_cost sm / (summary_energy sm / 1000))
  /\ (summary_energy sm <= 0 -> summary_avg_price sm = None)
  /\ (forall energy cost, energy <= 0 ->
        calculate_average_price energy cost = Ok 0
        /\ summary_average cost energy = Ok 0).
Proof.
  intros run sm.
  assert (Hsm : sm = summarize_baseline (charged_vehicles sm) run.1.1)
    by apply baseline_summary_of_table.
  destruct (baseline_average_line (charged_vehicles sm) run.1.1) as [Hpos Hzero].
  rewrite <- Hsm in Hpos, Hzero.
  split; [by rewrite Hsm|]. split; [by rewrite Hsm|].
  split; [exact Hpos|]. split; [exact Hzero|].
  intros energy cost Hle. unfold calculate_average_price, summary_average.
  destruct (Qlt_le_dec 0 energy) as [Hlt|_]; [exfalso; lra|by split].
Qed.

(** C8, where it fails.  A baseline run over a fleet without vehicles
    charges no energy, and its summary reports no average price rather
    than zero. *)
Lemma zero_energy_average_not_zero :
  let sm := (baseline_strategy (fun rows => rows) (set_vehicles [] Demo.fleet)
                               0 (Some 60%Z)).2 in
  summary_energy sm == 0
  /\ summary_avg_price sm = None
  /\ summary_avg_price sm <> Some 0.
Proof. vm_compute. split; [reflexivity|]. split; [reflexivity|discriminate]. Qed.

(** ** Parameter validation *)

Lemma Qle_bool_false x y : Qle_bool x y = false <-> y < x.
Proof.
  split.
  - intros H. apply Qnot_le_lt. intros Hle%Qle_bool_iff. congruence.
  - intros H. apply not_true_is_false. intros Hle%Qle_bool_iff. lra.
Qed.

(** [validate_parameters] raises a [ValueError] exactly on the parameters
    that are not valid. *)
Lemma validate_parameters_spec self :
  (valid_parameters self -> validate_parameters self = Ok tt)
  /\ (~ valid_parameters self -> exists msg, validate_parameters self = Raise (ValueError msg)).
Proof.
  unfold valid_parameters, validate_parameters.
  destruct (fleet_size self <=? 0)%Z eqn:E1.
  { apply Z.leb_le in E1. split; [lia|eauto]. }
  apply Z.leb_gt in E1.
  destruct (Qle_bool (ev_capacity self) 0) eqn:E2.
  { apply Qle_bool_iff in E2. split; [intros; exfalso; lra|eauto]. }
  apply Qle_bool_false in E2.
  destruct (Qle_bool 0 (cfg_min_charge_kw self)) eqn:E3; cbn [negb orb].
  2:{ apply Qle_bool_false in E3. split; [intros; exfalso; lra|eauto]. }
  apply Qle_bool_iff in E3.
  destruct (Qle_bool (cfg_max_charge_kw self) 0) eqn:E4; cbn [negb orb].
  { apply Qle_bool_iff in E4. split; [intros; exfalso; lra|eauto]. }
  apply Qle_bool_false in E4.
  destruct (Qle_bool (cfg_min_charge_kw self) (cfg_max_charge_kw self)) eqn:E5; cbn [negb orb].
  2:{ apply Qle_bool_false in E5. split; [intros; exfalso; lra|eauto]. }
  apply Qle_bool_iff in E5.
  destruct (Qle_bool (min_soc_target self) 0) eqn:E6; cbn [negb orb].
  { apply Qle_bool_iff in E6. split; [intros; exfalso; lra|eauto]. }
  apply Qle_bool_false in E6.
  destruct (Qle_bool (min_soc_target self) 1) eqn:E7; cbn [negb orb].
  2:{ apply Qle_bool_false in E7. split; [intros; exfalso; lra|eauto]. }
  apply Qle_bool_iff in E7.
  split; [reflexivity|]. intros H. exfalso. apply H. repeat split; assumption.
Qed.

(** The constructor never raises, whatever it is given. *)
Lemma init_never_raises n c lo hi tgt w : exists o, init n c lo hi tgt w = Ok o.
Proof. eexists. reflexivity. Qed.

(** C9, at a failing input.  A fleet size of zero is rejected by
    [validate_parameters], yet the constructor returns an optimizer and
    [main] goes on to run both strategies: nothing calls the validation. *)
Theorem invalid_parameters_not_rejected :
  (exists o, init 0 47 (15 # 10) 11 (9 # 10) true = Ok o
             /\ exists msg, validate_parameters o = Raise (ValueError msg))
  /\ exists out, main (fun rows => rows) 0 1 0 true (5 # 100) Demo.dam [] [] [] = Ok out.
Proof.
  split.
  - eexists. split; [reflexivity|]. eexists. reflexivity.
  - eexists. vm_compute. reflexivity.
Qed.

(** ** Price lookup when data is missing *)

Lemma abs_argmin_spec tbl t j d :
  abs_argmin tbl t = Some (j, d) ->
  exists row, tbl !! j = Some row
              /\ d = Z.abs (fst row - t)
              /\ forall row', In row' tbl -> (d <= Z.abs (fst row' - t))%Z.
Proof.
  revert j d. induction tbl as [|r tbl IH]; intros j d; simpl; [discriminate|].
  destruct (abs_argmin tbl t) as [[j' d']|] eqn:E.
  - destruct (IH _ _ eq_refl) as (row & Hrow & Hd & Hmin).
    destruct (Z.abs (fst r - t) <=? d')%Z eqn:Hc; intros [= <- <-].
    + apply Z.leb_le in Hc. exists r. repeat split.
      intros row' [<-|Hin]; [lia|]. specialize (Hmin _ Hin). lia.
    + apply Z.leb_gt in Hc. exists row. repeat split; [assumption..|].
      intros row' [<-|Hin]; [lia|]. by apply Hmin.
  - intros [= <- <-]. exists r. repeat split.
    intros row' [<-|Hin]; [lia|].
    destruct tbl; [destruct Hin|]. simpl in E.
    destruct (abs_argmin tbl t) as [[? ?]|]; [destruct (_ <=? _)%Z|]; discriminate.
Qed.

Lemma abs_argmin_none tbl t : abs_argmin tbl t = None -> tbl = [].
Proof.
  destruct tbl as [|r tbl]; [done|]. simpl.
  destruct (abs_argmin tbl t) as [[? ?]|]; [destruct (_ <=? _)%Z|]; discriminate.
Qed.

(** Outside its bucket the DAM price is that of a nearest row, or 50. *)
Lemma resolve_dam_price_gap dam lo :
  rows_in_range dam lo (lo + 60) = [] ->
  (dam = [] /\ resolve_dam_price dam lo = default_price)
  \/ exists row, In row dam
                 /\ resolve_dam_price dam lo = snd row
                 /\ forall row', In row' dam ->
                                 (Z.abs (fst row - lo) <= Z.abs (fst row' - lo))%Z.
Proof.
  intros Hgap. unfold resolve_dam_price, abs_idxmin. rewrite Hgap.
  destruct (abs_argmin dam lo) as [[j d]|] eqn:E; simpl.
  - right. destruct (abs_argmin_spec _ _ _ _ E) as (row & Hrow & -> & Hmin).
    rewrite Hrow. exists row. repeat split; [|assumption].
    apply list_elem_of_In. by eapply list_elem_of_lookup_2.
  - left. split; [by eapply abs_argmin_none|reflexivity].
Qed.

Lemma optimized_row_prices self s e a r :
  In r (optimized_strategy self s e a).1.1 ->
  dam_price r = resolve_dam_price (dam_prices self) (hour_of (Time r))
  /\ idm_15_price r = resolve_idm_price (idm_15_prices self) (Time r) 15 (dam_price r)
  /\ idm_60_price r = resolve_idm_price (idm_60_prices self) (hour_of (Time r)) 60 (dam_price r)
  /\ dam_cost r = dam_charge_kw r * dam_price r / 1000 * quarter
  /\ idm_15_cost r = idm_15_charge_kw r * idm_15_price r / 1000 * quarter
  /\ idm_60_cost r = idm_60_charge_kw r * idm_60_price r / 1000 * quarter.
Proof.
  intros Hin. pose proof (optimized_row_inv _ _ _ _ _ Hin) as Hr.
  set (t := Time r) in *. clearbody t. subst r.
  unfold book_slot. cbn [load_prices blank_row Time].
  destruct (slot_vehicles _); repeat split; reflexivity.
Qed.

(** C7, as the code has it.  When no row covers a slot, the DAM price is
    that of a row of the DAM table nearest to the slot's hour, a missing
    IDM-15 or IDM-60 price is the slot's DAM price, and each cost is the
    booked power times the resolved price.  A DAM table without rows is
    left out. *)
Theorem missing_price_resolution self s e a r :
  In r (optimized_strategy self s e a).1.1 ->
  let hour := hour_of (Time r) in
  (rows_in_range (dam_prices self) hour (hour + 60) = [] ->
   dam_prices self <> [] ->
   exists row, In row (dam_prices self)
               /\ dam_price r = snd row
               /\ forall row', In row' (dam_prices self) ->
                               (Z.abs (fst row - hour) <= Z.abs (fst row' - hour))%Z)
  /\ (rows_in_range (idm_15_prices self) (Time r) (Time r + 15) = [] ->
      idm_15_price r = dam_price r)
  /\ (rows_in_range (idm_60_prices self) hour (hour + 60) = [] ->
      idm_60_price r = dam_price r)
  /\ dam_cost r = dam_charge_kw r * dam_price r / 1000 * quarter
  /\ idm_15_cost r = idm_15_charge_kw r * idm_15_price r / 1000 * quarter
  /\ idm_60_cost r = idm_60_charge_kw r * idm_60_price r / 1000 * quarter.
Proof.
  intros Hin hour. subst hour.
  destruct (optimized_row_prices _ _ _ _ _ Hin) as (Hd & H15 & H60 & Hc & Hc15 & Hc60).
  split; [|split; [|split]].
  - intros Hgap Hne. rewrite Hd.
    destruct (resolve_dam_price_gap _ _ Hgap) as [[Hnil _]|Hrow]; [by destruct Hne|exact Hrow].
  - intros Hgap. rewrite H15 at 1. unfold resolve_idm_price. by rewrite Hgap.
  - intros Hgap. rewrite H60 at 1. unfold resolve_idm_price. by rewrite Hgap.
  - repeat split; assumption.
Qed.

Lemma missing_price_resolution_witness :
  In Gap.gap_row (optimized_strategy Gap.gappy 0 Gap.horizon_end (5 # 100)).1.1
  /\ rows_in_range (idm_15_prices Gap.gappy) (Time Gap.gap_row) (Time Gap.gap_row + 15) = []
  /\ idm_15_price Gap.gap_row = dam_price Gap.gap_row.
Proof.
  assert (H : In Gap.gap_row (optimized_strategy Gap.gappy 0 Gap.horizon_end (5 # 100)).1.1).
  { vm_compute. do 4 right. left. reflexivity. }
  assert (G : rows_in_range (idm_15_prices Gap.gappy) (Time Gap.gap_row)
                            (Time Gap.gap_row + 15) = []) by (vm_compute; reflexivity).
  split; [exact H|]. split; [exact G|].
  exact (proj1 (proj2 (missing_price_resolution _ _ _ _ _ H)) G).
Defined.

(** C7, where it fails.  The slot at minute 60 has no DAM, IDM-15 or IDM-60
    row in the second market, a vehicle is charged there, and the run prints
    and returns exactly what it prints and returns on the market without
    gaps: the gap is reported nowhere. *)
Lemma price_gap_not_reported :
  let run_gappy := optimized_strategy Gap.gappy 0 Gap.horizon_end (5 # 100) in
  let run_full := optimized_strategy Gap.full 0 Gap.horizon_end (5 # 100) in
  rows_in_range (dam_prices Gap.gappy) 60 120 = []
  /\ rows_in_range (idm_15_prices Gap.gappy) 60 75 = []
  /\ rows_in_range (idm_60_prices Gap.gappy) 60 120 = []
  /\ rows_in_range (dam_prices Gap.full) 60 120 <> []
  /\ rows_in_range (idm_15_prices Gap.full) 60 75 <> []
  /\ rows_in_range (idm_60_prices Gap.full) 60 120 <> []
  /\ Time Gap.gap_row = 60%Z
  /\ 0 < dam_charge_kw Gap.gap_row
  /\ run_gappy.2 = run_full.2
  /\ run_gappy.1.1 = run_full.1.1
  /\ vehicles run_gappy.1.2 = vehicles run_full.1.2.
Proof.
  cbv zeta. repeat split; try (vm_compute; (reflexivity || discriminate)).
Qed.

(** ** Runs on fleets that agree on what the strategies read *)

Section Agreement.

Variable R : vehicle -> vehicle -> Prop.

Hypothesis R_static : forall v v', R v v' ->
  arrival_time v = arrival_time v' /\ departure_time v = departure_time v'
  /\ return_soc v = return_soc v' /\ target_soc v = target_soc v'
  /\ capacity_kwh v = capacity_kwh v' /\ max_charge_kw v = max_charge_kw v'
  /\ veh_id v = veh_id v'.

Hypothesis R_set_state : forall v v' soc sched,
  R v v' -> R (set_state soc sched v) (set_state soc sched v').

Hypothesis R_charge : forall v v' t u i d p,
  R v v' -> R (charge_vehicle t u i d p v) (charge_vehicle t u i d p v').

Ltac static H :=
  let Ha := fresh "Harr" in let Hd := fresh "Hdep" in let Hr := fresh "Hret" in
  let Ht := fresh "Htgt" in let Hc := fresh "Hcap" in let Hm := fresh "Hmax" in
  let Hi := fresh "Hid" in
  destruct (R_static _ _ H) as (Ha & Hd & Hr & Ht & Hc & Hm & Hi).

Lemma lookup_agree vs vs' j :
  Forall2 R vs vs' ->
  (vs !! j = None /\ vs' !! j = None)
  \/ exists v v', vs !! j = Some v /\ vs' !! j = Some v' /\ R v v'.
Proof.
  intros H. apply Forall2_lookup with (i := j) in H.
  destruct H; [right; eauto|left; eauto].
Qed.

Lemma eligible_agree vs vs' s e :
  Forall2 R vs vs' -> get_eligible_vehicles vs s e = get_eligible_vehicles vs' s e.
Proof.
  intros H. unfold get_eligible_vehicles.
  rewrite <- (Forall2_length _ _ _ H).
  apply filter_ext_in. intros j _.
  destruct (lookup_agree _ _ j H) as [[-> ->]|(v & v' & -> & -> & Hv)]; [done|].
  static Hv. unfold overlaps. congruence.
Qed.

Lemma reset_eligible_agree el vs vs' :
  Forall2 R vs vs' -> Forall2 R (reset_eligible el vs) (reset_eligible el vs').
Proof.
  revert vs vs'. induction el as [|j el IH]; intros vs vs' H; simpl; [done|].
  apply IH. apply Forall2_alter; [done|].
  intros v v' _ _ Hv. unfold reset_vehicle. static Hv.
  replace (return_soc v') with (return_soc v) by done. by apply R_set_state.
Qed.

Lemma consume_agree j v v' tps rem needs :
  max_charge_kw v = max_charge_kw v' ->
  consume j v tps rem needs = consume j v' tps rem needs.
Proof.
  intros Hm. revert rem needs.
  induction tps as [|[t p] tps IH]; intros rem needs; simpl; [done|].
  rewrite <- Hm.
  destruct (Qlt_le_dec 0 rem); [|done].
  destruct (Qlt_le_dec 0 _); apply IH.
Qed.

Lemma project_vehicle_agree times tbl vs vs' needs j :
  Forall2 R vs vs' ->
  project_vehicle times tbl vs needs j = project_vehicle times tbl vs' needs j.
Proof.
  intros H. unfold project_vehicle.
  destruct (lookup_agree _ _ j H) as [[-> ->]|(v & v' & -> & -> & Hv)]; [done|].
  static Hv.
  replace (valid_times times v') with (valid_times times v)
    by (unfold valid_times; rewrite Harr, Hdep; reflexivity).
  replace (target_soc v') with (target_soc v) by done.
  replace (return_soc v') with (return_soc v) by done.
  replace (capacity_kwh v') with (capacity_kwh v) by done.
  destruct (Qlt_le_dec 0 _); [|done].
  destruct (valid_times times v); [done|].
  by apply consume_agree.
Qed.

Lemma phase1_agree times tbl vs vs' el :
  Forall2 R vs vs' -> phase1 times tbl vs el = phase1 times tbl vs' el.
Proof.
  intros H. unfold phase1. generalize (init_needs times).
  induction el as [|j el IH]; intros needs; simpl; [done|].
  rewrite (project_vehicle_agree _ _ _ _ _ _ H). apply IH.
Qed.

Lemma distribute_agree a t u need vs vs' :
  Forall2 R vs vs' -> Forall2 R (distribute a t u need vs) (distribute a t u need vs').
Proof.
  intros H. unfold distribute. destruct (Qlt_le_dec 0 _); [|done].
  revert vs vs' H. induction (slot_vehicles need) as [|vd vds IH]; intros vs vs' H;
    simpl; [done|].
  apply IH. apply Forall2_alter; [done|]. intros v v' _ _ Hv. by apply R_charge.
Qed.

Lemma allocate_slots_agree a needs rows vs vs' :
  Forall2 R vs vs' ->
  (allocate_slots a needs rows vs).1.1 = (allocate_slots a needs rows vs').1.1
  /\ (allocate_slots a needs rows vs).2 = (allocate_slots a needs rows vs').2
  /\ Forall2 R (allocate_slots a needs rows vs).1.2 (allocate_slots a needs rows vs').1.2.
Proof.
  revert vs vs'. induction rows as [|r rows IH]; intros vs vs' H; [by simpl|].
  cbn [allocate_slots].
  destruct (slot_vehicles (default empty_need (needs !! Time r))) as [|vd vds].
  - specialize (IH _ _ H).
    destruct (allocate_slots a needs rows vs) as [[t1 v1] o1].
    destruct (allocate_slots a needs rows vs') as [[t2 v2] o2].
    simpl in *. destruct IH as (-> & -> & ?). done.
  - specialize (IH _ _ (distribute_agree a (Time r) (use_15_min_idm r)
                          (default empty_need (needs !! Time r)) _ _ H)).
    destruct (allocate_slots a needs rows (distribute _ _ _ _ vs)) as [[t1 v1] o1].
    destruct (allocate_slots a needs rows (distribute _ _ _ _ vs')) as [[t2 v2] o2].
    simpl in *. destruct IH as (-> & -> & ?). done.
Qed.

Lemma priced_table_agree self self' times :
  same_market self self' -> priced_table self times = priced_table self' times.
Proof.
  intros (Hd & H15 & H60). unfold priced_table, load_prices.
  by rewrite Hd, H15, H60.
Qed.

(** The optimized run prints and returns the same on both fleets, and
    leaves them in agreement. *)
Lemma optimized_strategy_agree self self' s e a :
  same_market self self' -> Forall2 R (vehicles self) (vehicles self') ->
  (optimized_strategy self s e a).1.1 = (optimized_strategy self' s e a).1.1
  /\ (optimized_strategy self s e a).2 = (optimized_strategy self' s e a).2
  /\ same_market (optimized_strategy self s e a).1.2 (optimized_strategy self' s e a).1.2
  /\ Forall2 R (vehicles (optimized_strategy self s e a).1.2)
               (vehicles (optimized_strategy self' s e a).1.2).
Proof.
  intros Hm Hv. unfold optimized_strategy.
  rewrite <- (eligible_agree _ _ s (end_or_default s e) Hv).
  rewrite <- (priced_table_agree _ _ _ Hm).
  set (times := optimized_schedule_times s (end_or_default s e)).
  set (el := get_eligible_vehicles (vehicles self) s (end_or_default s e)).
  pose proof (reset_eligible_agree el _ _ Hv) as Hr.
  rewrite <- (phase1_agree times (priced_table self times) _ _ el Hr).
  pose proof (allocate_slots_agree a
                (phase1 times (priced_table self times) (reset_eligible el (vehicles self)) el)
                (priced_table self times) _ _ Hr) as (Ht & Ho & Hs).
  destruct (allocate_slots a _ _ (reset_eligible el (vehicles self))) as [[t1 v1] o1].
  destruct (allocate_slots a _ _ (reset_eligible el (vehicles self'))) as [[t2 v2] o2].
  simpl in *. subst t2 o2. repeat split; try done; apply Hm.
Qed.

Variable sort_values : list Baseline.row -> list Baseline.row.

Lemma charge_hours_agree v v' slots rem b sch h :
  max_charge_kw v = max_charge_kw v' ->
  charge_hours v slots rem b sch h = charge_hours v' slots rem b sch h.
Proof.
  intros Hm. revert rem b sch h.
  induction slots as [|slot slots IH]; intros rem b sch h; simpl; [done|].
  rewrite <- Hm. destruct (Qlt_le_dec 0 rem); [apply IH|done].
Qed.

Lemma baseline_vehicle_agree b vs vs' c j :
  Forall2 R vs vs' ->
  (baseline_vehicle sort_values (b, vs, c) j).1.1
  = (baseline_vehicle sort_values (b, vs', c) j).1.1
  /\ (baseline_vehicle sort_values (b, vs, c) j).2
     = (baseline_vehicle sort_values (b, vs', c) j).2
  /\ Forall2 R (baseline_vehicle sort_values (b, vs, c) j).1.2
               (baseline_vehicle sort_values (b, vs', c) j).1.2.
Proof.
  intros H. unfold baseline_vehicle.
  destruct (lookup_agree _ _ j H) as [[-> ->]|(v & v' & -> & -> & Hv)]; [done|].
  static Hv. rewrite <- Harr, <- Hdep, <- Hret, <- Htgt, <- Hcap.
  destruct (Qlt_le_dec 0 _); [|done].
  destruct (List.filter _ b) as [|slot slots]; [done|].
  rewrite <- (charge_hours_agree v v') by done.
  destruct (charge_hours v _ _ _ _ _) as [[[rem b'] sch] h]. simpl.
  repeat split. apply Forall2_alter; [done|].
  intros x y _ _ Hxy. by apply R_set_state.
Qed.

Lemma baseline_loop_agree el b vs vs' c :
  Forall2 R vs vs' ->
  (foldl (baseline_vehicle sort_values) (b, vs, c) el).1.1
  = (foldl (baseline_vehicle sort_values) (b, vs', c) el).1.1
  /\ (foldl (baseline_vehicle sort_values) (b, vs, c) el).2
     = (foldl (baseline_vehicle sort_values) (b, vs', c) el).2
  /\ Forall2 R (foldl (baseline_vehicle sort_values) (b, vs, c) el).1.2
               (foldl (baseline_vehicle sort_values) (b, vs', c) el).1.2.
Proof.
  revert b vs vs' c. induction el as [|j el IH]; intros b vs vs' c H; [by simpl|].
  cbn [foldl].
  pose proof (baseline_vehicle_agree b _ _ c j H) as (Hb & Hc & Hvs).
  destruct (baseline_vehicle sort_values (b, vs, c) j) as [[b1 vs1] c1].
  destruct (baseline_vehicle sort_values (b, vs', c) j) as [[b2 vs2] c2].
  simpl in *. subst b2 c2. by apply IH.
Qed.

(** The baseline run returns the same table and summary on both fleets,
    and leaves them in agreement. *)
Lemma baseline_strategy_agree self self' s e :
  same_market self self' -> Forall2 R (vehicles self) (vehicles self') ->
  (baseline_strategy sort_values self s e).1.1
  = (baseline_strategy sort_values self' s e).1.1
  /\ (baseline_strategy sort_values self s e).2
     = (baseline_strategy sort_values self' s e).2
  /\ same_market (baseline_strategy sort_values self s e).1.2
                 (baseline_strategy sort_values self' s e).1.2
  /\ Forall2 R (vehicles (baseline_strategy sort_values self s e).1.2)
               (vehicles (baseline_strategy sort_values self' s e).1.2).
Proof.
  intros Hm Hv. unfold baseline_strategy.
  rewrite <- (eligible_agree _ _ s (end_or_default s e) Hv).
  destruct Hm as (Hd & H15 & H60). rewrite <- Hd.
  set (el := get_eligible_vehicles (vehicles self) s (end_or_default s e)).
  set (b0 := List.map _ _).
  pose proof (baseline_loop_agree el b0 _ _ O Hv) as (Hb & Hc & Hvs).
  destruct (foldl _ (b0, vehicles self, O) el) as [[b1 vs1] c1].
  destruct (foldl _ (b0, vehicles self', O) el) as [[b2 vs2] c2].
  simpl in *. subst b2 c2. repeat split; done.
Qed.

End Agreement.

(** ** Baseline and optimized runs do not see each other's mutations *)

Lemma same_static_fields v v' :
  same_static v v' ->
  arrival_time v = arrival_time v' /\ departure_time v = departure_time v'
  /\ return_soc v = return_soc v' /\ target_soc v = target_soc v'
  /\ capacity_kwh v = capacity_kwh v' /\ max_charge_kw v = max_charge_kw v'
  /\ veh_id v = veh_id v'.
Proof.
  intros H. unfold same_static in H.
  repeat split;
    [apply (f_equal arrival_time) in H | apply (f_equal departure_time) in H
    |apply (f_equal return_soc) in H | apply (f_equal target_soc) in H
    |apply (f_equal capacity_kwh) in H | apply (f_equal max_charge_kw) in H
    |apply (f_equal veh_id) in H]; exact H.
Qed.

Lemma same_static_set_state v v' soc sched soc' sched' :
  same_static v v' -> same_static (set_state soc sched v) (set_state soc' sched' v').
Proof. intros H. exact H. Qed.

Lemma same_static_trans v1 v2 v3 : same_static v1 v2 -> same_static v2 v3 -> same_static v1 v3.
Proof. unfold same_static. congruence. Qed.

Lemma same_static_refl_list vs : Forall2 same_static vs vs.
Proof. induction vs; constructor; [reflexivity|assumption]. Qed.

Lemma same_static_alter vs0 vs j soc sched :
  Forall2 same_static vs0 vs ->
  Forall2 same_static vs0 (alter (fun v => set_state (soc v) (sched v) v) j vs).
Proof.
  intros H. apply Forall2_alter_r; [done|]. intros x y _ _ Hxy.
  eapply same_static_trans; [exact Hxy|]. reflexivity.
Qed.

Lemma reset_eligible_static el vs0 vs :
  Forall2 same_static vs0 vs -> Forall2 same_static vs0 (reset_eligible el vs).
Proof.
  revert vs. induction el as [|j el IH]; intros vs H; simpl; [done|].
  apply IH. by apply (same_static_alter vs0 vs j return_soc (fun _ => ∅)).
Qed.

Lemma distribute_static a t u need vs0 vs :
  Forall2 same_static vs0 vs -> Forall2 same_static vs0 (distribute a t u need vs).
Proof.
  intros H. unfold distribute. destruct (Qlt_le_dec 0 _); [|done].
  revert vs H. induction (slot_vehicles need) as [|vd vds IH]; intros vs H; simpl; [done|].
  apply IH. unfold charge_vehicle.
  match goal with |- context [alter (fun v => set_state (@?f v) (@?g v) v)] =>
    exact (same_static_alter vs0 vs _ f g H) end.
Qed.

Lemma allocate_slots_static a needs rows vs0 vs :
  Forall2 same_static vs0 vs ->
  Forall2 same_static vs0 (allocate_slots a needs rows vs).1.2.
Proof.
  revert vs. induction rows as [|r rows IH]; intros vs H; [by simpl|].
  cbn [allocate_slots].
  destruct (slot_vehicles (default empty_need (needs !! Time r))) as [|vd vds].
  - specialize (IH _ H). destruct (allocate_slots a needs rows vs) as [[t1 v1] o1]. done.
  - specialize (IH _ (distribute_static a (Time r) (use_15_min_idm r)
                        (default empty_need (needs !! Time r)) _ _ H)).
    destruct (allocate_slots a needs rows _) as [[t1 v1] o1]. done.
Qed.

Lemma optimized_strategy_static self s e a :
  same_market self (optimized_strategy self s e a).1.2
  /\ Forall2 same_static (vehicles self) (vehicles (optimized_strategy self s e a).1.2).
Proof.
  unfold optimized_strategy.
  match goal with |- context [allocate_slots a ?n ?r ?v] =>
    pose proof (allocate_slots_static a n r (vehicles self) v
                  (reset_eligible_static _ _ _ (same_static_refl_list _))) as H;
    destruct (allocate_slots a n r v) as [[t1 v1] o1] end.
  simpl in *. split; [done|exact H].
Qed.

Lemma baseline_loop_static sort el b vs0 vs c :
  Forall2 same_static vs0 vs ->
  Forall2 same_static vs0 (foldl (baseline_vehicle sort) (b, vs, c) el).1.2.
Proof.
  revert b vs c. induction el as [|j el IH]; intros b vs c H; [by simpl|].
  cbn [foldl].
  assert (G : Forall2 same_static vs0 (baseline_vehicle sort (b, vs, c) j).1.2).
  { unfold baseline_vehicle. destruct (vs !! j) as [v|]; [|done].
    destruct (Qlt_le_dec 0 _); [|done].
    destruct (List.filter _ b); [done|].
    destruct (charge_hours _ _ _ _ _ _) as [[[rem b'] sch] h]. simpl.
    exact (same_static_alter vs0 vs j _ (fun _ => sch) H). }
  destruct (baseline_vehicle sort (b, vs, c) j) as [[b1 vs1] c1]. by apply IH.
Qed.

Lemma baseline_strategy_static sort self s e :
  same_market self (baseline_strategy sort self s e).1.2
  /\ Forall2 same_static (vehicles self) (vehicles (baseline_strategy sort self s e).1.2).
Proof.
  unfold baseline_strategy.
  match goal with |- context [foldl (baseline_vehicle sort) (?b, ?v, ?c) ?el] =>
    pose proof (baseline_loop_static sort el b (vehicles self) v c
                  (same_static_refl_list _)) as H;
    destruct (foldl (baseline_vehicle sort) (b, v, c) el) as [[b1 vs1] c1] end.
  simpl in *. split; [done|exact H].
Qed.

(** C6.  Whatever horizon and DAM fraction the other strategy was run
    with, running the baseline on the fleet the optimized run left behind
    returns the same table and the same summary (energy, cost, average
    price) as running it on the original fleet; and the optimized strategy
    after a baseline run returns the same table and prints the same output
    as on the original fleet. *)
Theorem baseline_independence sort self s e a s' e' :
  let after_opt := (optimized_strategy self s e a).1.2 in
  let after_base := (baseline_strategy sort self s' e').1.2 in
  (baseline_strategy sort after_opt s' e').1.1 = (baseline_strategy sort self s' e').1.1
  /\ (baseline_strategy sort after_opt s' e').2 = (baseline_strategy sort self s' e').2
  /\ (optimized_strategy after_base s e a).1.1 = (optimized_strategy self s e a).1.1
  /\ (optimized_strategy after_base s e a).2 = (optimized_strategy self s e a).2.
Proof.
  intros after_opt after_base.
  destruct (optimized_strategy_static self s e a) as [Hm1 Hv1].
  destruct (baseline_strategy_static sort self s' e') as [Hm2 Hv2].
  pose proof (baseline_strategy_agree same_static same_static_fields
                (fun v v' soc sched H => same_static_set_state v v' soc sched soc sched H)
                sort self after_opt s' e' Hm1 Hv1) as (Hb & Hs & _).
  pose proof (optimized_strategy_agree same_static same_static_fields
                (fun v v' soc sched H => same_static_set_state v v' soc sched soc sched H)
                (fun v v' t u i d p H => H)
                self after_base s e a Hm2 Hv2) as (Ho & Hl & _).
  repeat split; done.
Qed.

(** ** The minimum charging power is never read *)

Lemma same_but_min_fields v v' :
  same_but_min v v' ->
  arrival_time v = arrival_time v' /\ departure_time v = departure_time v'
  /\ return_soc v = return_soc v' /\ target_soc v = target_soc v'
  /\ capacity_kwh v = capacity_kwh v' /\ max_charge_kw v = max_charge_kw v'
  /\ veh_id v = veh_id v'.
Proof.
  intros H. unfold same_but_min in H.
  repeat split;
    [apply (f_equal arrival_time) in H | apply (f_equal departure_time) in H
    |apply (f_equal return_soc) in H | apply (f_equal target_soc) in H
    |apply (f_equal capacity_kwh) in H | apply (f_equal max_charge_kw) in H
    |apply (f_equal veh_id) in H]; exact H.
Qed.

Lemma same_but_min_set_state v v' soc sched :
  same_but_min v v' -> same_but_min (set_state soc sched v) (set_state soc sched v').
Proof.
  destruct v, v'. unfold same_but_min, set_min_charge, set_state; simpl.
  intros [= -> -> -> -> -> -> -> -> -> -> -> ->]. reflexivity.
Qed.

Lemma same_but_min_charge v v' t u i d p :
  same_but_min v v' -> same_but_min (charge_vehicle t u i d p v) (charge_vehicle t u i d p v').
Proof.
  destruct v, v'. unfold same_but_min, set_min_charge, charge_vehicle, set_state; simpl.
  intros [= -> -> -> -> -> -> -> -> -> -> -> ->]. reflexivity.
Qed.

Lemma make_vehicle_min m self d :
  option_Forall2 same_but_min (make_vehicle self d) (make_vehicle (with_min_charge m self) d).
Proof.
  unfold make_vehicle, with_min_charge; simpl.
  destruct (Qlt_le_dec 0 _); [|constructor].
  destruct (Qlt_le_dec 0 _); constructor. reflexivity.
Qed.

Lemma insert_by_arrival_min x x' l l' :
  same_but_min x x' -> Forall2 same_but_min l l' ->
  Forall2 same_but_min (insert_by_arrival x l) (insert_by_arrival x' l').
Proof.
  intros Hx Hl. induction Hl as [|y y' l l' Hy Hl IH]; simpl.
  - by repeat constructor.
  - destruct (same_but_min_fields _ _ Hx) as (<- & _).
    destruct (same_but_min_fields _ _ Hy) as (<- & _).
    destruct (_ <=? _)%Z; by repeat constructor.
Qed.

Lemma sort_by_arrival_min l l' :
  Forall2 same_but_min l l' ->
  Forall2 same_but_min (sort_by_arrival l) (sort_by_arrival l').
Proof.
  induction 1; simpl; [constructor|]. by apply insert_by_arrival_min.
Qed.

Lemma initialize_fleet_min m draws self :
  same_market (initialize_fleet draws self) (initialize_fleet draws (with_min_charge m self))
  /\ Forall2 same_but_min (vehicles (initialize_fleet draws self))
                          (vehicles (initialize_fleet draws (with_min_charge m self))).
Proof.
  split; [done|]. unfold initialize_fleet; simpl.
  apply sort_by_arrival_min.
  induction draws as [|d draws IH]; simpl; [constructor|].
  destruct (make_vehicle_min m self d); [by constructor|assumption].
Qed.

(** C10.  Two optimizers that differ only in the configured minimum
    charging power, given the same sampled candidates, build fleets that
    differ only in [min_charge_kw]; the baseline and the optimized run then
    return the same tables, summary and printed output on both, and leave
    vehicle states that again differ only in [min_charge_kw].  A vehicle can
    therefore be scheduled at a positive power below its minimum: the
    example vehicle charges 0.4 kW against a minimum of 1.5 kW. *)
Theorem min_charge_kw_ignored sort self m draws s e a :
  let f := initialize_fleet draws self in
  let f' := initialize_fleet draws (with_min_charge m self) in
  let b := baseline_strategy sort f s e in
  let b' := baseline_strategy sort f' s e in
  let o := optimized_strategy b.1.2 s e a in
  let o' := optimized_strategy b'.1.2 s e a in
  Forall2 same_but_min (vehicles f) (vehicles f')
  /\ b.1.1 = b'.1.1 /\ b.2 = b'.2
  /\ Forall2 same_but_min (vehicles b.1.2) (vehicles b'.1.2)
  /\ o.1.1 = o'.1.1 /\ o.2 = o'.2
  /\ Forall2 same_but_min (vehicles o.1.2) (vehicles o'.1.2)
  /\ exists v kw,
       vehicles Trickle.after !! O = Some v
       /\ charging_schedule v !! 0%Z = Some (SrcDAM kw)
       /\ 0 < kw /\ kw < min_charge_kw v.
Proof.
  intros f f' b b' o o'.
  destruct (initialize_fleet_min m draws self) as [Hm Hv].
  pose proof (baseline_strategy_agree same_but_min same_but_min_fields
                same_but_min_set_state sort f f' s e Hm Hv) as (Hb & Hs & Hm' & Hv').
  pose proof (optimized_strategy_agree same_but_min same_but_min_fields
                same_but_min_set_state same_but_min_charge
                b.1.2 b'.1.2 s e a Hm' Hv') as (Ho & Hl & _ & Hv'').
  repeat (split; [assumption|]).
  assert (Hex : match vehicles Trickle.after !! O with
                | Some v => match charging_schedule v !! 0%Z with
                            | Some (SrcDAM kw) => 0 < kw /\ kw < min_charge_kw v
                            | _ => False
                            end
                | None => False
                end) by (vm_compute; split; reflexivity).
  destruct (vehicles Trickle.after !! O) as [v|]; [|destruct Hex].
  exists v.
  destruct (charging_schedule v !! 0%Z) as [[kw|kw|kw ty|kd ki ty]|];
    try (exfalso; exact Hex).
  destruct Hex as [Hlo Hhi]. exists kw.
  split; [reflexivity|]. split; [reflexivity|]. split; assumption.
Qed.

(** ** Ranking of a vehicle's slots *)

Lemma insert_by_price_perm x l : Permutation (x :: l) (insert_by_price x l).
Proof.
  induction l as [|y l IH]; simpl; [done|].
  destruct (Qle_bool (snd x) (snd y)); [done|].
  rewrite <- IH. apply perm_swap.
Qed.

Lemma sort_by_price_perm l : Permutation l (sort_by_price l).
Proof.
  induction l as [|x l IH]; simpl; [done|].
  rewrite <- insert_by_price_perm. by constructor.
Qed.




Lemma date_range_sorted start n freq :
  (0 < freq)%Z -> StronglySorted Z.lt (date_range start n freq).
Proof.
  intros Hf. unfold date_range. generalize O.
  induction n as [|n IH]; intros k; simpl; [constructor|].
  apply StronglySorted_cons. split; [|apply IH].
  apply Forall_forall. intros t Ht.
  apply list_elem_of_In, in_map_iff in Ht as (i & <- & Hi).
  apply in_seq in Hi. nia.
Qed.

Lemma StronglySorted_lt_filter (f : Z -> bool) l :
  StronglySorted Z.lt l -> StronglySorted Z.lt (List.filter f l).
Proof.
  induction l as [|x l IH]; simpl; intros Hs; [constructor|].
  apply StronglySorted_cons in Hs as [Hx Hs].
  destruct (f x); [|by apply IH].
  apply StronglySorted_cons. split; [|by apply IH].
  apply Forall_forall. intros y Hy%list_elem_of_In%filter_In.
  rewrite Forall_forall in Hx. apply Hx. apply list_elem_of_In. tauto.
Qed.

Lemma StronglySorted_lt_NoDup l : StronglySorted Z.lt l -> List.NoDup l.
Proof.
  induction l as [|x l IH]; intros Hs; [constructor|].
  apply StronglySorted_cons in Hs as [Hx Hs].
  constructor; [|by apply IH].
  intros Hin. rewrite Forall_forall in Hx.
  specialize (Hx x (proj2 (list_elem_of_In _ _) Hin)). lia.
Qed.

Lemma schedule_times_sorted s e : StronglySorted Z.lt (optimized_schedule_times s e).
Proof. apply date_range_sorted. lia. Qed.


(** ** What phase 1 records for one vehicle *)

Lemma entries_alter j j' e p t t' (N : gmap Z slot_need) :
  is_Some (N !! t) ->
  entries j' (alter (add_need j e p) t N) t'
  = entries j' N t' ++ (if (t =? t')%Z && Nat.eqb j j' then [mkVdata j e p] else []).
Proof.
  intros [n Hn]. unfold entries. rewrite lookup_alter.
  destruct (Z.eqb_spec t t') as [<-|Hne].
  - rewrite decide_True by done. rewrite Hn. simpl.
    rewrite List.filter_app. simpl. by destruct (Nat.eqb j j').
  - rewrite decide_False by done. simpl. by rewrite List.app_nil_r.
Qed.

Lemma has_keys_alter times f t (N : gmap Z slot_need) :
  has_keys times N -> has_keys times (alter f t N).
Proof.
  intros H t' Ht'. specialize (H t' Ht'). rewrite lookup_alter.
  destruct (decide (t = t')) as [->|]; [|done]. destruct H as [n ->]. by eexists.
Qed.

Lemma has_keys_consume times j v tps rem N :
  has_keys times N -> has_keys times (consume j v tps rem N).
Proof.
  revert rem N. induction tps as [|[t p] tps IH]; intros rem N H; simpl; [done|].
  destruct (Qlt_le_dec 0 rem); [|done].
  destruct (Qlt_le_dec 0 _); apply IH; [by apply has_keys_alter|done].
Qed.

Lemma has_keys_project times tbl vs N j :
  has_keys times N -> has_keys times (project_vehicle times tbl vs N j).
Proof.
  intros H. unfold project_vehicle. destruct (vs !! j); [|done].
  destruct (Qlt_le_dec 0 _); [|done]. destruct (valid_times times _); [done|].
  by apply has_keys_consume.
Qed.

Lemma has_keys_init times : has_keys times (init_needs times).
Proof.
  unfold init_needs, has_keys.
  assert (G : forall (m : gmap Z slot_need) t,
             In t times \/ is_Some (m !! t) ->
             is_Some (foldl (fun needs time => <[time := empty_need]> needs) m times !! t)).
  { induction times as [|t0 times IH]; intros m t [Hin|Hm]; simpl.
    - destruct Hin.
    - done.
    - apply IH. destruct Hin as [->|Hin]; [right|by left].
      rewrite lookup_insert_eq. by eexists.
    - apply IH. right. rewrite lookup_insert.
      destruct (decide (t0 = t)); [by eexists|done]. }
  intros t Ht. apply G. by left.
Qed.

Lemma consume_entries j j' v tps rem N t' :
  has_keys (List.map fst tps) N ->
  entries j' (consume j v tps rem N) t'
  = entries j' N t' ++ (if Nat.eqb j j' then trace_at t' j (consume_trace v tps rem) else []).
Proof.
  revert rem N. induction tps as [|[t p] tps IH]; intros rem N Hk; simpl.
  { destruct (Nat.eqb j j'); by rewrite List.app_nil_r. }
  assert (Hk' : has_keys (List.map fst tps) N) by (intros x Hx; apply Hk; by right).
  destruct (Qlt_le_dec 0 rem).
  2:{ destruct (Nat.eqb j j'); by rewrite List.app_nil_r. }
  destruct (Qlt_le_dec 0 _); [|by apply IH].
  rewrite IH by (by apply has_keys_alter).
  rewrite entries_alter by (apply Hk; by left).
  rewrite <- List.app_assoc. f_equal.
  unfold trace_at. simpl.
  destruct (Nat.eqb j j'), (t =? t')%Z; simpl; reflexivity.
Qed.

Lemma project_vehicle_entries self times vs N j j' t :
  has_keys times N ->
  entries j' (project_vehicle times (priced_table self times) vs N j) t
  = entries j' N t
    ++ (if Nat.eqb j j' then
          match vs !! j with
          | Some v => trace_at t j (vehicle_trace self times v)
          | None => []
          end
        else []).
Proof.
  intros Hk. unfold project_vehicle, vehicle_trace, ranked_slots.
  destruct (vs !! j) as [v|]; [|destruct (Nat.eqb j j'); by rewrite List.app_nil_r].
  destruct (Qlt_le_dec 0 _); [|destruct (Nat.eqb j j'); by rewrite List.app_nil_r].
  destruct (valid_times times v) as [|t0 ts] eqn:E.
  { simpl. destruct (Nat.eqb j j'); by rewrite List.app_nil_r. }
  apply consume_entries.
  intros x Hx. apply Hk.
  rewrite <- sort_by_price_perm in Hx. rewrite List.map_map in Hx.
  change (In x (List.map (fun t => t) (t0 :: ts))) in Hx.
  rewrite List.map_id, <- E in Hx. by apply filter_In in Hx as [? _].
Qed.

Lemma phase1_entries_gen self times vs el N j' t :
  has_keys times N ->
  entries j' (foldl (project_vehicle times (priced_table self times) vs) N el) t
  = entries j' N t
    ++ concat (List.map (fun j => if Nat.eqb j j' then
                                    match vs !! j with
                                    | Some v => trace_at t j (vehicle_trace self times v)
                                    | None => []
                                    end
                                  else []) el).
Proof.
  revert N. induction el as [|j el IH]; intros N Hk; simpl.
  - by rewrite List.app_nil_r.
  - rewrite IH by (by apply has_keys_project).
    rewrite project_vehicle_entries by done. by rewrite <- List.app_assoc.
Qed.

Lemma concat_single {A} (X : nat -> list A) el j' :
  List.NoDup el ->
  concat (List.map (fun j => if Nat.eqb j j' then X j else []) el)
  = if bool_decide (In j' el) then X j' else [].
Proof.
  induction 1 as [|j el Hj Hnd IH]; [done|].
  cbn [List.map concat]. rewrite IH. destruct (Nat.eqb j j') eqn:Ej.
  - apply Nat.eqb_eq in Ej. subst j'.
    rewrite (bool_decide_eq_true_2 (In j (j :: el))) by (by left).
    rewrite (bool_decide_eq_false_2 (In j el)) by done. by rewrite List.app_nil_r.
  - apply Nat.eqb_neq in Ej. simpl. destruct (bool_decide (In j' el)) eqn:E.
    + apply bool_decide_eq_true in E.
      rewrite (bool_decide_eq_true_2 (In j' (j :: el))); [done|by right].
    + apply bool_decide_eq_false in E.
      rewrite (bool_decide_eq_false_2 (In j' (j :: el))); [done|].
      intros [?|?]; done.
Qed.

Lemma init_needs_entries times j t : entries j (init_needs times) t = [].
Proof.
  unfold entries. destruct (init_needs times !! t) as [n|] eqn:E; [|done].
  by apply init_needs_lookup in E as ->.
Qed.

Lemma eligible_NoDup vs s e : List.NoDup (get_eligible_vehicles vs s e).
Proof. apply List.NoDup_filter, List.seq_NoDup. Qed.

Lemma vehicle_trace_static self times v v' :
  same_static v v' -> vehicle_trace self times v = vehicle_trace self times v'.
Proof.
  intros H. destruct (same_static_fields _ _ H) as (Ha & Hd & Hr & Ht & Hc & Hm & _).
  unfold vehicle_trace, ranked_slots, valid_times.
  rewrite Ha, Hd, Hr, Ht, Hc. destruct (Qlt_le_dec 0 _); [|done].
  generalize (sort_by_price
                (List.map (fun t => (t, dam_price_at (priced_table self times) t))
                   (List.filter (fun t => (arrival_time v' <=? t)%Z && (t <? departure_time v')%Z)
                      times))).
  intros tps. generalize ((target_soc v' - return_soc v') * capacity_kwh v').
  induction tps as [|[t p] tps IH]; intros rem; simpl; [done|].
  rewrite Hm. destruct (Qlt_le_dec 0 rem); [|done].
  destruct (Qlt_le_dec 0 _); [f_equal|]; apply IH.
Qed.

Lemma not_overlapping_no_slots s e v :
  overlaps s e v = false -> valid_times (optimized_schedule_times s e) v = [].
Proof.
  intros H. unfold valid_times.
  destruct (List.filter _ _) as [|t ts] eqn:E; [done|]. exfalso.
  assert (Hin : In t (t :: ts)) by (by left). rewrite <- E in Hin.
  apply filter_In in Hin as [Hin Hc].
  unfold optimized_schedule_times, date_range in Hin.
  apply in_map_iff in Hin as (i & <- & Hi). apply in_seq in Hi.
  unfold overlaps in H. apply andb_false_iff in H.
  assert (0 < Z.quot (e - s) 15)%Z by lia.
  assert (0 < e - s)%Z.
  { destruct (Z_lt_le_dec 0 (e - s)); [done|].
    pose proof (Z.quot_opp_l (s - e) 15). 
    assert (Z.quot (e - s) 15 <= 0)%Z; [|lia].
    replace (e - s)%Z with (- (s - e))%Z by lia. rewrite Z.quot_opp_l by lia.
    pose proof (Z.quot_pos (s - e) 15). lia. }
  pose proof (Z.mul_quot_le (e - s) 15).
  destruct H as [H|H]; [apply Z.ltb_ge in H|apply Z.ltb_ge in H]; lia.
Qed.

(** In the needs table of a run, the records of vehicle [j] in slot [t]
    are those of its greedy trace. *)
Lemma run_entries self s e j v t :
  vehicles self !! j = Some v ->
  entries j (run_needs self s e) t
  = trace_at t j (vehicle_trace self (optimized_schedule_times s (end_or_default s e)) v).
Proof.
  intros Hv. unfold run_needs, phase1.
  set (times := optimized_schedule_times s (end_or_default s e)).
  set (el := get_eligible_vehicles (vehicles self) s (end_or_default s e)).
  rewrite phase1_entries_gen by apply has_keys_init.
  rewrite init_needs_entries. simpl.
  rewrite (concat_single
             (fun j => match reset_eligible el (vehicles self) !! j with
                       | Some v => trace_at t j (vehicle_trace self times v)
                       | None => []
                       end)) by apply eligible_NoDup.
  destruct (bool_decide (In j el)) eqn:E.
  - pose proof (reset_eligible_static el _ _ (same_static_refl_list (vehicles self))) as Hs.
    destruct (Forall2_lookup_l _ _ _ _ _ Hs Hv) as (v' & -> & Hvv').
    by rewrite (vehicle_trace_static _ _ _ _ Hvv').
  - apply bool_decide_eq_false in E.
    assert (Ho : overlaps s (end_or_default s e) v = false).
    { apply not_true_is_false. intros Ho. apply E. subst el.
      unfold get_eligible_vehicles. apply filter_In. split.
      - apply in_seq. apply lookup_lt_Some in Hv. lia.
      - by rewrite Hv. }
    unfold vehicle_trace, ranked_slots. subst times.
    rewrite (not_overlapping_no_slots _ _ _ Ho). simpl.
    by destruct (Qlt_le_dec 0 _).
Qed.

(** ** The greedy loop against the spec's rule *)







Lemma ranked_slots_NoDup self times v :
  StronglySorted Z.lt times -> List.NoDup (List.map fst (ranked_slots self times v)).
Proof.
  intros Hs. unfold ranked_slots.
  rewrite <- sort_by_price_perm, List.map_map. simpl. rewrite List.map_id.
  by apply StronglySorted_lt_NoDup, StronglySorted_lt_filter.
Qed.




(** ** What phase 3 does to one vehicle *)

Lemma foldl_alter_lookup (f : vdata -> vehicle -> vehicle) l (vs : list vehicle) j :
  foldl (fun vs vd => alter (f vd) (vehicle_ref vd) vs) vs l !! j
  = (fun v => foldl (fun v vd => f vd v) v
                    (List.filter (fun vd => Nat.eqb (vehicle_ref vd) j) l)) <$> (vs !! j).
Proof.
  revert vs. induction l as [|vd l IH]; intros vs; simpl.
  - by destruct (vs !! j).
  - rewrite IH, list_lookup_alter.
    destruct (Nat.eqb_spec (vehicle_ref vd) j) as [->|Hne].
    + rewrite decide_True by done. by destruct (vs !! j).
    + by rewrite decide_False by done.
Qed.

Lemma distribute_lookup a needs r (vs : list vehicle) j :
  distribute a (Time r) (use_15_min_idm r) (default empty_need (needs !! Time r)) vs !! j
  = (fun v => slot_effect a needs j v r) <$> (vs !! j).
Proof.
  unfold distribute, slot_effect.
  destruct (Qlt_le_dec 0 _); [|by destruct (vs !! j)].
  apply (foldl_alter_lookup
           (fun vd => charge_vehicle (Time r) (use_15_min_idm r) _ _ (power_kw vd))).
Qed.

Lemma slot_effect_no_vehicles a needs j v r :
  slot_vehicles (default empty_need (needs !! Time r)) = [] -> slot_effect a needs j v r = v.
Proof. intros H. unfold slot_effect. rewrite H. simpl. by destruct (Qlt_le_dec 0 _). Qed.

Lemma allocate_slots_lookup a needs rows (vs : list vehicle) j :
  (allocate_slots a needs rows vs).1.2 !! j
  = (fun v => foldl (slot_effect a needs j) v rows) <$> (vs !! j).
Proof.
  revert vs. induction rows as [|r rows IH]; intros vs; [simpl; by destruct (vs !! j)|].
  cbn [allocate_slots foldl].
  destruct (slot_vehicles (default empty_need (needs !! Time r))) as [|vd vds] eqn:E.
  - specialize (IH vs). destruct (allocate_slots a needs rows vs) as [[t1 v1] o1].
    simpl in *. rewrite IH. destruct (vs !! j) as [v|]; simpl; [|done].
    by rewrite slot_effect_no_vehicles.
  - match goal with |- context [allocate_slots a needs rows ?st] =>
      specialize (IH st); destruct (allocate_slots a needs rows st) as [[t1 v1] o1] end.
    simpl in *. rewrite IH, distribute_lookup. by destruct (vs !! j).
Qed.

Lemma reset_eligible_lookup el (vs : list vehicle) j :
  reset_eligible el vs !! j
  = if bool_decide (In j el) then reset_vehicle <$> (vs !! j) else vs !! j.
Proof.
  unfold reset_eligible. revert vs. induction el as [|i el IH]; intros vs.
  - by rewrite (bool_decide_eq_false_2 (In j [])) by (intros []).
  - cbn [foldl]. rewrite IH, list_lookup_alter.
    destruct (decide (i = j)) as [Heq|Hne].
    + subst i. rewrite (bool_decide_eq_true_2 (In j (j :: el))) by (by left).
      destruct (vs !! j) as [v|]; destruct (bool_decide (In j el)); reflexivity.
    + destruct (bool_decide (In j el)) eqn:E.
      * apply bool_decide_eq_true in E.
        rewrite (bool_decide_eq_true_2 (In j (i :: el))); [done|by right].
      * apply bool_decide_eq_false in E.
        rewrite (bool_decide_eq_false_2 (In j (i :: el))); [done|].
        intros [?|?]; done.
Qed.

Lemma pass_state_lookup self s e a k j :
  pass_state self s e a k !! j
  = (fun v => foldl (slot_effect a (run_needs self s e) j) v
                    (take k (priced_table self
                               (optimized_schedule_times s (end_or_default s e)))))
      <$> (reset_eligible (get_eligible_vehicles (vehicles self) s (end_or_default s e))
                          (vehicles self) !! j).
Proof. unfold pass_state. apply allocate_slots_lookup. Qed.

Lemma final_state_is_pass_state self s e a :
  vehicles (optimized_strategy self s e a).1.2
  = pass_state self s e a (length (optimized_schedule_times s (end_or_default s e))).
Proof.
  unfold pass_state, optimized_strategy, run_needs.
  rewrite take_ge by (unfold priced_table; by rewrite length_map).
  by destruct (allocate_slots _ _ _ _) as [[t1 v1] o1].
Qed.

(** ** State of charge along the pass *)










(** *** The energy recorded for a vehicle never exceeds its deficit *)









Lemma priced_table_times self times : List.map Time (priced_table self times) = times.
Proof.
  unfold priced_table. rewrite List.map_map. simpl. apply List.map_id.
Qed.





(** ** Charging schedule entries written by phase 3 *)

Lemma consume_trace_times v tps rem x :
  In x (consume_trace v tps rem) -> In (fst (fst x)) (List.map fst tps).
Proof.
  revert rem. induction tps as [|[t p] tps IH]; intros rem; simpl; [done|].
  destruct (Qlt_le_dec 0 rem); [|done].
  destruct (Qlt_le_dec 0 _).
  - intros [<-|H]; [by left|right; by eapply IH].
  - intros H. right. by eapply IH.
Qed.

Lemma trace_at_le_one v tps rem t j :
  List.NoDup (List.map fst tps) ->
  (length (trace_at t j (consume_trace v tps rem)) <= 1)%nat.
Proof.
  revert rem. induction tps as [|[t0 p] tps IH]; intros rem Hnd; simpl; [lia|].
  inversion Hnd as [|? ? Hnotin Hnd']; subst.
  destruct (Qlt_le_dec 0 rem); [|simpl; lia].
  destruct (Qlt_le_dec 0 _); [|by apply IH].
  unfold trace_at. simpl. destruct (Z.eqb_spec t0 t) as [->|Hne]; [|by apply IH].
  simpl. match goal with |- (S (length (List.map _ ?l)) <= 1)%nat =>
    assert (Hl : l = []); [|rewrite Hl; simpl; lia] end.
  match goal with |- ?l = [] => destruct l as [|y ys] eqn:E; [done|] end.
  exfalso. assert (Hy : In y (y :: ys)) by (by left). rewrite <- E in Hy.
  apply filter_In in Hy as [Hy Ht]. apply Z.eqb_eq in Ht.
  apply consume_trace_times in Hy. simpl in Ht. by rewrite Ht in Hy.
Qed.

Lemma run_entries_le_one self s e j v t :
  vehicles self !! j = Some v ->
  (length (entries j (run_needs self s e) t) <= 1)%nat.
Proof.
  intros Hv. rewrite (run_entries _ _ _ _ _ _ Hv). unfold vehicle_trace.
  destruct (Qlt_le_dec 0 _); [|simpl; lia].
  apply trace_at_le_one, ranked_slots_NoDup, schedule_times_sorted.
Qed.

(** A vehicle recorded in a slot is an eligible vehicle of the fleet. *)
Lemma run_entries_ref self s e t vd :
  In vd (slot_vehicles (default empty_need (run_needs self s e !! t))) ->
  In vd (entries (vehicle_ref vd) (run_needs self s e) t)
  /\ In (vehicle_ref vd) (get_eligible_vehicles (vehicles self) s (end_or_default s e))
  /\ exists v, vehicles self !! vehicle_ref vd = Some v.
Proof.
  intros Hin.
  assert (He : In vd (entries (vehicle_ref vd) (run_needs self s e) t)).
  { unfold entries. apply filter_In. split; [done|]. apply Nat.eqb_refl. }
  split; [done|].
  assert (Hel : In (vehicle_ref vd)
                   (get_eligible_vehicles (vehicles self) s (end_or_default s e))).
  { revert He. unfold run_needs, phase1.
    rewrite phase1_entries_gen by apply has_keys_init.
    rewrite init_needs_entries. simpl.
    rewrite (concat_single
               (fun j => match reset_eligible _ (vehicles self) !! j with
                         | Some v => trace_at t j (vehicle_trace self _ v)
                         | None => []
                         end)) by apply eligible_NoDup.
    destruct (bool_decide _) eqn:E; [|done].
    by apply bool_decide_eq_true in E. }
  split; [done|].
  unfold get_eligible_vehicles in Hel. apply filter_In in Hel as [_ Hl].
  destruct (vehicles self !! vehicle_ref vd) as [v|]; [by eexists|done].
Qed.

Lemma charge_fold_schedule_other t t' u ir dr l v :
  t <> t' ->
  charging_schedule (foldl (fun v vd => charge_vehicle t u ir dr (power_kw vd) v) v l) !! t'
  = charging_schedule v !! t'.
Proof.
  intros Hne. revert v. induction l as [|vd l IH]; intros v; simpl; [done|].
  rewrite IH. cbn [charge_vehicle set_state charging_schedule].
  destruct (schedule_entry _ _ _); [|done]. by rewrite lookup_insert_ne.
Qed.

Lemma slot_effect_schedule_other a needs j v r t :
  Time r <> t ->
  charging_schedule (slot_effect a needs j v r) !! t = charging_schedule v !! t.
Proof.
  intros Hne. unfold slot_effect. destruct (Qlt_le_dec 0 _); [|done].
  by apply charge_fold_schedule_other.
Qed.

Lemma pass_schedule_other a needs j rows v t :
  ~ In t (List.map Time rows) ->
  charging_schedule (foldl (slot_effect a needs j) v rows) !! t = charging_schedule v !! t.
Proof.
  revert v. induction rows as [|r rows IH]; intros v Hn; simpl; [done|].
  rewrite IH by (intros H; apply Hn; by right).
  apply slot_effect_schedule_other. intros H. apply Hn. by left.
Qed.

Lemma slot_effect_schedule a needs j v r :
  needs_ok needs ->
  (length (entries j needs (Time r)) <= 1)%nat ->
  charging_schedule (slot_effect a needs j v r) !! Time r
  = match slot_entry a needs j r with
    | Some en => Some en
    | None => charging_schedule v !! Time r
    end.
Proof.
  intros Hok Hlen. unfold slot_entry, slot_effect. unfold entries in *.
  destruct (default_need_ok needs (Time r) Hok) as (Hpow & _ & Hall).
  destruct (List.filter _ _) as [|vd [|vd' l]] eqn:E; [by destruct (Qlt_le_dec 0 _)| |simpl in Hlen; lia].
  destruct (Qlt_le_dec 0 _) as [Hpos|Hneg].
  - simpl. unfold vehicle_dam_kw, vehicle_idm_kw.
    destruct (schedule_entry _ _ _); [by rewrite lookup_insert_eq|done].
  - exfalso.
    assert (Hin : In vd (slot_vehicles (default empty_need (needs !! Time r)))).
    { assert (H : In vd [vd]) by (by left). rewrite <- E in H. by apply filter_In in H as [? _]. }
    assert (0 < sum_power (slot_vehicles (default empty_need (needs !! Time r)))).
    { apply sum_power_pos; [done|]. intros H0. by rewrite H0 in Hin. }
    lra.
Qed.

Lemma pass_schedule a needs j rows v r :
  needs_ok needs ->
  (forall t, (length (entries j needs t) <= 1)%nat) ->
  List.NoDup (List.map Time rows) -> In r rows ->
  charging_schedule (foldl (slot_effect a needs j) v rows) !! Time r
  = match slot_entry a needs j r with
    | Some en => Some en
    | None => charging_schedule v !! Time r
    end.
Proof.
  intros Hok Hlen. revert v. induction rows as [|r0 rows IH]; intros v Hnd Hin; [destruct Hin|].
  simpl in *. inversion Hnd as [|? ? Hnotin Hnd']; subst.
  destruct Hin as [->|Hin].
  - rewrite pass_schedule_other by done. by apply slot_effect_schedule.
  - rewrite IH by done.
    rewrite slot_effect_schedule_other; [done|].
    intros Heq. apply Hnotin. rewrite Heq. by apply in_map.
Qed.

Lemma optimized_row_time self s e a r :
  In r (optimized_strategy self s e a).1.1 ->
  In (Time r) (optimized_schedule_times s (end_or_default s e)).
Proof.
  rewrite optimized_table. intros (t & <- & Ht)%in_map_iff.
  replace (Time (calculate_costs _)) with t; [done|].
  unfold book_slot. cbn [load_prices blank_row Time]. by destruct (slot_vehicles _).
Qed.

Lemma distribution_entries self s e a r :
  In r (optimized_strategy self s e a).1.1 ->
  let need := default empty_need (run_needs self s e !! Time r) in
  let D := total_charge_kw r in
  (forall vd, In vd (slot_vehicles need) ->
     0 < D
     /\ exists vf,
          vehicles (optimized_strategy self s e a).1.2 !! vehicle_ref vd = Some vf
          /\ charging_schedule vf !! Time r
             = schedule_entry (use_15_min_idm r)
                 (power_kw vd * (dam_actual_kw a D / D))
                 (power_kw vd * (inject_Z (idm_actual_kw a D) / D)))
  /\ (slot_vehicles need = [] ->
      forall j v0 vf,
        pass_state self s e a 0 !! j = Some v0 ->
        vehicles (optimized_strategy self s e a).1.2 !! j = Some vf ->
        charging_schedule vf !! Time r = charging_schedule v0 !! Time r).
Proof.
  intros Hin need D.
  pose proof (optimized_row_inv _ _ _ _ _ Hin) as Hr.
  pose proof (optimized_row_time _ _ _ _ _ Hin) as Ht.
  pose proof (run_needs_ok self s e) as Hok.
  set (N := run_needs self s e) in *.
  set (times := optimized_schedule_times s (end_or_default s e)) in *.
  set (rp := load_prices self (blank_row (Time r))) in *.
  assert (Hrp : In rp (priced_table self times)).
  { unfold priced_table. apply in_map_iff. by exists (Time r). }
  assert (Hnd : List.NoDup (List.map Time (priced_table self times))).
  { rewrite priced_table_times. apply StronglySorted_lt_NoDup, schedule_times_sorted. }
  split.
  - intros vd Hvd.
    destruct (run_entries_ref self s e (Time r) vd Hvd) as (He & Hel & v & Hv).
    fold N in He. pose proof (run_entries_le_one self s e _ v (Time r) Hv) as Hlen.
    fold N in Hlen.
    destruct (default_need_ok N (Time r) Hok) as (Hpow & _ & Hall). fold need in Hpow, Hall.
    assert (Hne : slot_vehicles need <> []) by (intros H0; by rewrite H0 in Hvd).
    assert (HD : D = total_power_kw need /\ use_15_min_idm r = use_15_min_idm rp).
    { subst D. rewrite Hr. unfold book_slot. change (Time rp) with (Time r). fold need.
      destruct (slot_vehicles need) as [|x xs]; [by destruct Hne|]. split; reflexivity. }
    destruct HD as [HD Hu].
    split. { rewrite HD, Hpow. by apply sum_power_pos. }
    rewrite final_state_is_pass_state, pass_state_lookup, reset_eligible_lookup.
    fold times N. rewrite bool_decide_eq_true_2 by done. rewrite Hv. simpl.
    eexists. split; [done|].
    rewrite take_ge by (unfold priced_table; by rewrite length_map).
    change (Time r) with (Time rp) at 1.
    rewrite (pass_schedule a N (vehicle_ref vd) _ _ rp Hok); [|intros t; by eapply run_entries_le_one|done|done].
    unfold slot_entry. change (Time rp) with (Time r). fold need.
    destruct (entries (vehicle_ref vd) N (Time r)) as [|vd0 [|vd1 l]] eqn:E;
      [destruct He| |simpl in Hlen; lia].
    destruct He as [->|[]]. rewrite HD, Hu.
    by destruct (schedule_entry _ _ _).
  - intros Hempty j v0 vf Hv0 Hvf.
    rewrite pass_state_lookup in Hv0. fold times N in Hv0. simpl in Hv0.
    rewrite final_state_is_pass_state, pass_state_lookup in Hvf. fold times N in Hvf.
    rewrite take_ge in Hvf by (unfold priced_table; by rewrite length_map).
    destruct (reset_eligible _ (vehicles self) !! j) as [v1|] eqn:E1; [|done].
    simpl in Hv0, Hvf. injection Hv0 as <-. injection Hvf as <-.
    assert (Hv : exists v, vehicles self !! j = Some v).
    { rewrite reset_eligible_lookup in E1.
      destruct (vehicles self !! j) as [v|]; [by eexists|by destruct (bool_decide _)]. }
    destruct Hv as [v Hv].
    change (Time r) with (Time rp).
    rewrite (pass_schedule a N j _ _ rp Hok); [|intros t; by eapply run_entries_le_one|done|done].
    unfold slot_entry, entries. change (Time rp) with (Time r). fold need.
    by rewrite Hempty.
Qed.


Lemma booked_columns a need self t :
  0 <= a -> a <= 1 -> need_ok need -> slot_vehicles need <> [] ->
  let r := calculate_costs (booked a need (load_prices self (blank_row t))) in
  0 < total_charge_kw r
  /\ total_charge_kw r == dam_charge_kw r + idm_charge_kw r
  /\ dam_charge_kw r == dam_actual_kw a (total_charge_kw r)
  /\ idm_charge_kw r == inject_Z (idm_actual_kw a (total_charge_kw r))
  /\ 0 <= dam_charge_kw r /\ 0 <= idm_charge_kw r.
Proof.
  intros Ha Ha' (Hpow & _ & Hall) Hne. unfold booked.
  destruct (slot_vehicles need) as [|vd vds] eqn:Hvs; [by destruct Hne|].
  assert (HD : 0 < total_power_kw need).
  { rewrite Hpow. apply sum_power_pos; [assumption|discriminate]. }
  assert (HD' : 0 <= total_power_kw need) by lra.
  destruct (idm_actual_bounds a _ Ha Ha' HD') as [Hlo Hhi].
  cbn [calculate_costs allocate_slot load_prices blank_row total_charge_kw dam_charge_kw
       idm_charge_kw].
  unfold dam_actual_kw.
  set (idm := idm_actual_kw a (total_power_kw need)) in *.
  assert (Hz : (0 <? idm)%Z = false -> inject_Z idm == 0).
  { intros Hf. apply Z.ltb_ge in Hf. assert (idm = 0%Z) as -> by lia. reflexivity. }
  assert (Hp : 0 <= inject_Z idm).
  { change 0 with (inject_Z 0). rewrite <- Zle_Qle. exact Hlo. }
  destruct (Qlt_le_dec 0 (total_power_kw need - inject_Z idm)) as [Hd|Hd];
    destruct (0 <? idm)%Z eqn:Hib; try specialize (Hz eq_refl);
    repeat split; lra.
Qed.

Lemma share_pos p x D : 0 < p -> 0 < D -> 0 <= x -> (0 < p * (x / D) <-> 0 < x).
Proof.
  intros Hp HD Hx. split.
  - intros H. apply Qnot_le_lt. intros Hx0.
    assert (E : x == 0) by lra. rewrite E in H. unfold Qdiv in H.
    rewrite Qmult_0_l, Qmult_0_r in H. lra.
  - intros H. apply Qmult_lt_0_compat; [exact Hp|]. by apply Qlt_shift_div_l; lra.
Qed.

Lemma schedule_entry_shares u p dam idm D dam' idm' :
  0 < p -> 0 < D -> 0 <= dam' -> 0 <= idm' -> D == dam' + idm' ->
  dam == dam' -> idm == idm' ->
  exists en,
    schedule_entry u (p * (dam / D)) (p * (idm / D)) = Some en
    /\ (0 < idm' -> 0 < dam' ->
        same_entry en (SrcMIXED (p * (dam' / D)) (p * (idm' / D))
                                (if u then Idm15min else Idm60min)))
    /\ (0 < idm' -> dam' == 0 ->
        same_entry en (SrcIDM (p * (idm' / D)) (if u then Idm15min else Idm60min)))
    /\ (idm' == 0 -> same_entry en (SrcDAM (p * (dam' / D)))).
Proof.
  intros Hp HD Hd0 Hi0 Hsum Ed Ei.
  assert (Ed' : p * (dam / D) == p * (dam' / D)) by (by rewrite Ed).
  assert (Ei' : p * (idm / D) == p * (idm' / D)) by (by rewrite Ei).
  pose proof (share_pos p dam' D Hp HD Hd0) as Pd.
  pose proof (share_pos p idm' D Hp HD Hi0) as Pi.
  unfold schedule_entry.
  set (sd := p * (dam / D)) in *. set (sd' := p * (dam' / D)) in *.
  set (si := p * (idm / D)) in *. set (si' := p * (idm' / D)) in *.
  assert (Nd : sd' <= 0 -> dam' <= 0).
  { intros H. apply Qnot_lt_le. intros H'. apply Pd in H'. lra. }
  assert (Ni : si' <= 0 -> idm' <= 0).
  { intros H. apply Qnot_lt_le. intros H'. apply Pi in H'. lra. }
  assert (Qd : 0 < sd' -> 0 < dam') by apply Pd.
  assert (Qi : 0 < si' -> 0 < idm') by apply Pi.
  destruct (Qlt_le_dec 0 si) as [Hi|Hi]; destruct (Qlt_le_dec 0 sd) as [Hd|Hd].
  - eexists. split; [reflexivity|]. cbn [same_entry]. split; [|split].
    + intros _ _. by repeat split.
    + intros _ Hz. assert (0 < dam') by (apply Qd; lra). lra.
    + intros Hz. assert (0 < idm') by (apply Qi; lra). lra.
  - eexists. split; [reflexivity|]. cbn [same_entry]. split; [|split].
    + intros _ Hpos. assert (dam' <= 0) by (apply Nd; lra). lra.
    + intros _ _. by split.
    + intros Hz. assert (0 < idm') by (apply Qi; lra). lra.
  - eexists. split; [reflexivity|]. cbn [same_entry]. split; [|split].
    + intros Hpos _. assert (idm' <= 0) by (apply Ni; lra). lra.
    + intros Hpos _. assert (idm' <= 0) by (apply Ni; lra). lra.
    + intros _. exact Ed'.
  - exfalso.
    assert (dam' <= 0) by (apply Nd; lra).
    assert (idm' <= 0) by (apply Ni; lra).
    lra.
Qed.

(** C2.  With a DAM fraction in [0, 1], in a slot with vehicles the total
    demand D is positive and every contributing vehicle ends the run with a
    schedule entry for the slot that holds its proportional shares
    dam = demand * (dam_charge_kw / D) and idm = demand * (idm_charge_kw / D)
    of the power booked for the slot: a MIXED entry with both when both
    markets are used, an IDM or a DAM entry with the one share otherwise,
    the IDM type being 15min exactly when the IDM-15 price is at most the
    IDM-60 price.  A slot without demand leaves every vehicle's schedule at
    that slot as the pass found it.  In the demonstration run with
    DAM_ALLOCATION = 0.5 the first slot has a demand of 250 kW, books 100 kW
    on IDM and 150 kW on DAM, and the vehicle demanding 50 kW gets a MIXED
    entry with dam = 30 and idm = 20. *)
Theorem proportional_distribution self s e a r :
  0 <= a -> a <= 1 ->
  In r (optimized_strategy self s e a).1.1 ->
  let need := default empty_need (run_needs self s e !! Time r) in
  let D := total_charge_kw r in
  let ty := if Qle_bool (idm_15_price r) (idm_60_price r) then Idm15min else Idm60min in
  (forall vd, In vd (slot_vehicles need) ->
     let dam_kw := power_kw vd * (dam_charge_kw r / D) in
     let idm_kw := power_kw vd * (idm_charge_kw r / D) in
     0 < D /\ 0 < power_kw vd
     /\ exists vf en,
          vehicles (optimized_strategy self s e a).1.2 !! vehicle_ref vd = Some vf
          /\ charging_schedule vf !! Time r = Some en
          /\ (0 < idm_charge_kw r -> 0 < dam_charge_kw r ->
              same_entry en (SrcMIXED dam_kw idm_kw ty))
          /\ (0 < idm_charge_kw r -> dam_charge_kw r == 0 ->
              same_entry en (SrcIDM idm_kw ty))
          /\ (idm_charge_kw r == 0 -> same_entry en (SrcDAM dam_kw)))
  /\ (slot_vehicles need = [] ->
      forall j v0 vf,
        pass_state self s e a 0 !! j = Some v0 ->
        vehicles (optimized_strategy self s e a).1.2 !! j = Some vf ->
        charging_schedule vf !! Time r = charging_schedule v0 !! Time r)
  /\ (let run := optimized_strategy Demo.fleet 0 Demo.horizon_end Demo.half in
      total_charge_kw Demo.first_row == 250
      /\ idm_charge_kw Demo.first_row == 100
      /\ dam_charge_kw Demo.first_row == 150
      /\ (exists vd,
            In vd (slot_vehicles (default empty_need
                                    (run_needs Demo.fleet 0 Demo.horizon_end !! 0%Z)))
            /\ vehicle_ref vd = O /\ power_kw vd == 50)
      /\ exists vf en,
           vehicles run.1.2 !! O = Some vf
           /\ charging_schedule vf !! 0%Z = Some en
           /\ same_entry en (SrcMIXED 30 20 Idm15min)).
Proof.
  intros Ha Ha' Hin need D ty.
  destruct (distribution_entries self s e a r Hin) as [Hvd Hempty].
  split; [|split; [exact Hempty|]].
  - intros vd Hin_vd dam_kw idm_kw.
    destruct (Hvd vd Hin_vd) as (HD & vf & Hvf & Hsch).
    pose proof (optimized_row_inv _ _ _ _ _ Hin) as Hr.
    change (book_slot a (run_needs self s e) (load_prices self (blank_row (Time r))))
      with (booked a need (load_prices self (blank_row (Time r)))) in Hr.
    assert (Hne : slot_vehicles need <> []) by (intros H0; by rewrite H0 in Hin_vd).
    pose proof (booked_columns a need self (Time r) Ha Ha'
                  (default_need_ok _ (Time r) (run_needs_ok self s e)) Hne) as Hcols.
    rewrite <- Hr in Hcols. cbn zeta in Hcols.
    destruct Hcols as (_ & Hsum & Hdam & Hidm & Hd0 & Hi0).
    assert (Hp : 0 < power_kw vd).
    { apply vdata_ok_power.
      destruct (default_need_ok _ (Time r) (run_needs_ok self s e)) as (_ & _ & Hall).
      rewrite Forall_forall in Hall. apply Hall, list_elem_of_In, Hin_vd. }
    split; [exact HD|]. split; [exact Hp|].
    destruct (schedule_entry_shares (use_15_min_idm r) (power_kw vd)
                (dam_actual_kw a D) (inject_Z (idm_actual_kw a D)) D
                (dam_charge_kw r) (idm_charge_kw r) Hp HD Hd0 Hi0 Hsum)
      as (en & Hen & Hcases); [by symmetry|by symmetry|].
    exists vf, en. split; [exact Hvf|]. split; [by rewrite Hsch|exact Hcases].
  - cbn zeta. split; [vm_compute; reflexivity|]. split; [vm_compute; reflexivity|].
    split; [vm_compute; reflexivity|]. split.
    + assert (H : match slot_vehicles (default empty_need
                                         (run_needs Demo.fleet 0 Demo.horizon_end !! 0%Z)) with
                  | vd :: _ => vehicle_ref vd = O /\ power_kw vd == 50
                  | [] => False
                  end).
      { vm_compute. split; reflexivity. }
      destruct (slot_vehicles (default empty_need
                                 (run_needs Demo.fleet 0 Demo.horizon_end !! 0%Z)))
        as [|vd0 l0]; [destruct H|].
      exists vd0. split; [by left|exact H].
    + assert (H : match vehicles (optimized_strategy Demo.fleet 0 Demo.horizon_end
                                    Demo.half).1.2 !! O with
                  | Some vf => match charging_schedule vf !! 0%Z with
                               | Some en => same_entry en (SrcMIXED 30 20 Idm15min)
                               | None => False
                               end
                  | None => False
                  end).
      { vm_compute. repeat split; reflexivity. }
      destruct (vehicles _ !! O) as [vf|]; [|destruct H].
      destruct (charging_schedule vf !! 0%Z) as [en|] eqn:E; [|destruct H].
      exists vf, en. by repeat split.
Qed.

Lemma proportional_distribution_witness :
  0 <= Demo.half /\ Demo.half <= 1
  /\ In Demo.first_row (optimized_strategy Demo.fleet 0 Demo.horizon_end Demo.half).1.1
  /\ exists vf en,
       vehicles (optimized_strategy Demo.fleet 0 Demo.horizon_end Demo.half).1.2 !! O = Some vf
       /\ charging_schedule vf !! 0%Z = Some en
       /\ same_entry en (SrcMIXED 30 20 Idm15min).
Proof.
  assert (H1 : 0 <= Demo.half) by (unfold Demo.half; lra).
  assert (H2 : Demo.half <= 1) by (unfold Demo.half; lra).
  assert (H3 : In Demo.first_row
                  (optimized_strategy Demo.fleet 0 Demo.horizon_end Demo.half).1.1)
    by (vm_compute; left; reflexivity).
  split; [exact H1|]. split; [exact H2|]. split; [exact H3|].
  exact (proj2 (proj2 (proj2 (proj2 (proj2 (proj2
           (proportional_distribution _ _ _ _ _ H1 H2 H3))))))).
Defined.

(** * Further properties of the code *)

(** ** Rounding of the IDM share *)

Lemma dam_share_row a need self t :
  0 <= a -> a <= 1 -> need_ok need ->
  let r := calculate_costs (booked a need (load_prices self (blank_row t))) in
  let D := total_charge_kw r in
  0 <= D
  /\ D * a <= dam_charge_kw r /\ dam_charge_kw r < D * a + 100
  /\ idm_charge_kw r <= D * (1 - a) /\ D * (1 - a) < idm_charge_kw r + 100.
Proof.
  intros Ha Ha' (Hpow & _ & Hall). unfold booked.
  destruct (slot_vehicles need) as [|vd vds] eqn:Hvs.
  { cbn. repeat split; lra. }
  assert (HD : 0 < total_power_kw need).
  { rewrite Hpow. apply sum_power_pos; [assumption|discriminate]. }
  assert (HD' : 0 <= total_power_kw need) by lra.
  destruct (idm_actual_bounds a _ Ha Ha' HD') as [Hlo Hhi].
  pose proof (idm_actual_floor a _ Ha Ha' HD') as Hfl.
  pose proof (Qfloor_le ((total_power_kw need - total_power_kw need * a) / 100)) as Hle.
  pose proof (Qlt_floor ((total_power_kw need - total_power_kw need * a) / 100)) as Hlt.
  rewrite inject_Z_plus in Hlt. change (inject_Z 1) with 1 in Hlt.
  assert (Hx : (total_power_kw need - total_power_kw need * a) / 100 * 100
               == total_power_kw need - total_power_kw need * a) by field.
  assert (Hi : inject_Z (idm_actual_kw a (total_power_kw need))
               == 100 * inject_Z (Qfloor ((total_power_kw need - total_power_kw need * a) / 100))).
  { rewrite Hfl, inject_Z_mult. reflexivity. }
  cbn [calculate_costs allocate_slot load_prices blank_row total_charge_kw dam_charge_kw
       idm_charge_kw].
  unfold dam_actual_kw.
  set (idm := idm_actual_kw a (total_power_kw need)) in *.
  assert (Hz : (0 <? idm)%Z = false -> inject_Z idm == 0).
  { intros Hf. apply Z.ltb_ge in Hf. assert (idm = 0%Z) as -> by lia. reflexivity. }
  destruct (Qlt_le_dec 0 (total_power_kw need - inject_Z idm)) as [Hd|Hd];
    destruct (0 <? idm)%Z eqn:Hib; try specialize (Hz eq_refl);
    repeat split; lra.
Qed.

(** Rounding the IDM power down to a multiple of 100 kW moves at most one
    100 kW block from IDM to DAM.  With a DAM fraction in [0, 1], up to
    round-off the DAM power of every row lies between its nominal share
    D * DAM_ALLOCATION and that share plus 100 kW, and the IDM power between
    the nominal IDM share minus 100 kW and the nominal IDM share. *)
Theorem dam_share_bounds self s e a r :
  0 <= a -> a <= 1 ->
  In r (optimized_strategy self s e a).1.1 ->
  let D := total_charge_kw r in
  D * a - round_off D <= dam_charge_kw r
  /\ dam_charge_kw r <= D * a + 100 + round_off D
  /\ D * (1 - a) - 100 - round_off D <= idm_charge_kw r
  /\ idm_charge_kw r <= D * (1 - a) + round_off D
  /\ D == dam_charge_kw r + idm_charge_kw r.
Proof.
  intros Ha Ha' Hin.
  pose proof (optimized_row_inv _ _ _ _ _ Hin) as Hr.
  pose proof (dam_share_row a _ self (Time r) Ha Ha'
                (default_need_ok _ (Time r) (run_needs_ok self s e))) as H.
  pose proof (slot_split_row a _ self (Time r) Ha Ha'
                (default_need_ok _ (Time r) (run_needs_ok self s e))) as G.
  pose proof (market_choice_row a (default empty_need (run_needs self s e !! Time r))
                self (Time r)) as M.
  change (book_slot a (run_needs self s e) (load_prices self (blank_row (Time r))))
    with (booked a (default empty_need (run_needs self s e !! Time r))
                 (load_prices self (blank_row (Time r)))) in Hr.
  rewrite <- Hr in H, G, M. cbn zeta in H, G, M |- *.
  destruct H as (H0 & H1 & H2 & H3 & H4). destruct G as (_ & G2 & _).
  destruct M as (_ & _ & M3 & M4 & _).
  assert (Hsum : idm_charge_kw r == idm_15_charge_kw r + idm_60_charge_kw r).
  { destruct (Qlt_le_dec (idm_60_price r) (idm_15_price r)) as [Hlt|Hle].
    - destruct (M4 (Qlt_not_le _ _ Hlt)) as [-> ->]. ring.
    - destruct (M3 Hle) as [-> ->]. ring. }
  unfold round_off. repeat split; lra.
Qed.

Lemma dam_share_bounds_witness :
  0 <= Demo.half /\ Demo.half <= 1
  /\ In Demo.first_row (optimized_strategy Demo.fleet 0 Demo.horizon_end Demo.half).1.1
  /\ total_charge_kw Demo.first_row * Demo.half
     - round_off (total_charge_kw Demo.first_row) <= dam_charge_kw Demo.first_row.
Proof.
  assert (H1 : 0 <= Demo.half) by (unfold Demo.half; lra).
  assert (H2 : Demo.half <= 1) by (unfold Demo.half; lra).
  assert (H3 : In Demo.first_row
                  (optimized_strategy Demo.fleet 0 Demo.horizon_end Demo.half).1.1)
    by (vm_compute; left; reflexivity).
  split; [exact H1|]. split; [exact H2|]. split; [exact H3|].
  exact (proj1 (dam_share_bounds _ _ _ _ _ H1 H2 H3)).
Defined.

(** ** Costing of the IDM purchase *)

Lemma idm_cost_row a need self t :
  let r := calculate_costs (booked a need (load_prices self (blank_row t))) in
  idm_price r <= idm_15_price r /\ idm_price r <= idm_60_price r
  /\ idm_cost r == idm_charge_kw r * idm_price r / 1000 * quarter
  /\ idm_cost r == idm_15_cost r + idm_60_cost r.
Proof.
  unfold booked.
  assert (Hmin : forall p15 p60, py_min p15 p60 <= p15 /\ py_min p15 p60 <= p60
                   /\ (Qle_bool p15 p60 = true -> py_min p15 p60 == p15)
                   /\ (Qle_bool p15 p60 = false -> py_min p15 p60 == p60)).
  { intros p15 p60. unfold py_min. destruct (Qlt_le_dec p60 p15) as [H|H].
    - repeat split; try lra. intros Hb%Qle_bool_iff. lra.
    - repeat split; try lra. intros Hb%Qle_bool_false. lra. }
  destruct (slot_vehicles need) as [|vd vds] eqn:Hvs.
  { cbn [calculate_costs load_prices blank_row idm_price idm_15_price idm_60_price idm_cost
         idm_charge_kw idm_15_charge_kw idm_60_charge_kw idm_15_cost idm_60_cost].
    destruct (Hmin (resolve_idm_price (idm_15_prices self) t 15
                      (resolve_dam_price (dam_prices self) (hour_of t)))
                   (resolve_idm_price (idm_60_prices self) (hour_of t) 60
                      (resolve_dam_price (dam_prices self) (hour_of t)))) as (H1 & H2 & _).
    repeat split; try assumption; unfold Qdiv; ring. }
  cbn [calculate_costs allocate_slot load_prices blank_row idm_price idm_15_price
       idm_60_price idm_cost idm_charge_kw idm_15_charge_kw idm_60_charge_kw
       idm_15_cost idm_60_cost].
  unfold use_15_min_idm. cbn [load_prices blank_row idm_15_price idm_60_price].
  set (p15 := resolve_idm_price (idm_15_prices self) _ _ _).
  set (p60 := resolve_idm_price (idm_60_prices self) _ _ _).
  destruct (Hmin p15 p60) as (H1 & H2 & H3 & H4).
  split; [exact H1|]. split; [exact H2|]. split; [|reflexivity].
  destruct (Qle_bool p15 p60); [rewrite (H3 eq_refl)|rewrite (H4 eq_refl)];
    destruct (0 <? _)%Z; cbn [andb negb]; unfold Qdiv; ring.
Qed.

(** The IDM power of a slot is always paid at the better of the two IDM
    prices: [idm_price] is at most both quotes and
    idm_cost = idm_charge_kw * idm_price / 1000 * 0.25, which is also the sum
    of the two per-market cost columns. *)
Theorem idm_costed_at_best_price self s e a r :
  In r (optimized_strategy self s e a).1.1 ->
  idm_price r <= idm_15_price r /\ idm_price r <= idm_60_price r
  /\ idm_cost r == idm_charge_kw r * idm_price r / 1000 * quarter
  /\ idm_cost r == idm_15_cost r + idm_60_cost r.
Proof.
  intros Hin.
  pose proof (optimized_row_inv _ _ _ _ _ Hin) as Hr.
  pose proof (idm_cost_row a (default empty_need (run_needs self s e !! Time r))
                self (Time r)) as H.
  change (book_slot a (run_needs self s e) (load_prices self (blank_row (Time r))))
    with (booked a (default empty_need (run_needs self s e !! Time r))
                 (load_prices self (blank_row (Time r)))) in Hr.
  rewrite <- Hr in H. exact H.
Qed.

Lemma idm_costed_at_best_price_witness :
  In Demo.first_row (optimized_strategy Demo.fleet 0 Demo.horizon_end Demo.half).1.1
  /\ idm_price Demo.first_row <= idm_15_price Demo.first_row.
Proof.
  assert (H : In Demo.first_row
                 (optimized_strategy Demo.fleet 0 Demo.horizon_end Demo.half).1.1)
    by (vm_compute; left; reflexivity).
  split; [exact H|]. exact (proj1 (idm_costed_at_best_price _ _ _ _ _ H)).
Defined.

(** ** Parameter validation *)

(** On parameters that are numbers [validate_parameters] accepts exactly
    the valid ones, and what it raises on the others is a [ValueError].  A
    parameter that is not a number fails no guard: with NaN for the four
    float parameters and a positive fleet size every comparison is false and
    the validation passes. *)
Theorem validate_parameters_rejects self :
  (validate_parameters self = Ok tt <-> valid_parameters self)
  /\ ((exists msg, validate_parameters self = Raise (ValueError msg))
      <-> ~ valid_parameters self)
  /\ forall fleet_size : Z,
       (0 < fleet_size)%Z ->
       F64.validate_parameters fleet_size PrimFloat.nan PrimFloat.nan
                               PrimFloat.nan PrimFloat.nan = true.
Proof.
  destruct (validate_parameters_spec self) as [Hok Hbad].
  assert (Hdec : valid_parameters self \/ ~ valid_parameters self).
  { unfold valid_parameters.
    destruct (Z_lt_dec 0 (fleet_size self)); [|right; tauto].
    destruct (Qlt_le_dec 0 (ev_capacity self)); [|right; intros (_ & H & _); lra].
    destruct (Qlt_le_dec (cfg_min_charge_kw self) 0);
      [right; intros (_ & _ & H & _); lra|].
    destruct (Qlt_le_dec 0 (cfg_max_charge_kw self));
      [|right; intros (_ & _ & _ & H & _); lra].
    destruct (Qlt_le_dec (cfg_max_charge_kw self) (cfg_min_charge_kw self));
      [right; intros (_ & _ & _ & _ & H & _); lra|].
    destruct (Qlt_le_dec 0 (min_soc_target self));
      [|right; intros (_ & _ & _ & _ & _ & H & _); lra].
    destruct (Qlt_le_dec 1 (min_soc_target self));
      [right; intros (_ & _ & _ & _ & _ & _ & H); lra|].
    left. tauto. }
  split; [split|split; [split|]].
  - intros H. destruct Hdec as [Hv|Hv]; [exact Hv|].
    destruct (Hbad Hv) as [msg Hm]. congruence.
  - exact Hok.
  - intros [msg Hm] Hv. rewrite (Hok Hv) in Hm. discriminate.
  - exact Hbad.
  - intros n Hn. unfold F64.validate_parameters.
    destruct (Z.leb_spec n 0) as [Hle|_]; [lia|]. reflexivity.
Qed.

(** ** Probability tables *)

Lemma column_sum_from {A} (col : A -> Q) rows a :
  foldl (fun acc r => acc + col r) a rows == a + column_sum col rows.
Proof.
  unfold column_sum. revert a.
  induction rows as [|x l IH]; intros a; cbn [foldl]; [ring|].
  rewrite (IH (a + col x)), (IH (0 + col x)). ring.
Qed.

Lemma column_sum_nil {A} (col : A -> Q) : column_sum col [] = 0.
Proof. reflexivity. Qed.

Lemma column_sum_cons {A} (col : A -> Q) x l :
  column_sum col (x :: l) == col x + column_sum col l.
Proof.
  unfold column_sum at 1. cbn [foldl]. rewrite column_sum_from. ring.
Qed.

Lemma column_sum_app {A} (col : A -> Q) l1 l2 :
  column_sum col (l1 ++ l2) == column_sum col l1 + column_sum col l2.
Proof.
  induction l1 as [|x l IH].
  - rewrite column_sum_nil. cbn [app]. ring.
  - change ((x :: l) ++ l2) with (x :: (l ++ l2)).
    rewrite !column_sum_cons, IH. ring.
Qed.


Lemma normalized_scaled {K} (d : list (K * Q)) t :
  ~ t == 0 ->
  Forall2 (fun kv kv' => snd kv' * t == snd kv * 100) d
          (List.map (fun kv => (fst kv, snd kv / t * 100)) d).
Proof.
  intros Ht. induction d as [|kv d IH]; [constructor|].
  cbn [List.map]. constructor; [|exact IH]. cbn [snd]. field. exact Ht.
Qed.






Lemma pmf_rows_columns {B} (probs : list (B * Q)) acc :
  List.map bin (pmf_rows acc probs) = List.map fst probs
  /\ List.map probability (pmf_rows acc probs) = List.map snd probs.
Proof.
  revert acc. induction probs as [|kv l IH]; intros acc; [split; reflexivity|].
  destruct (IH (acc + snd kv)) as [H1 H2].
  cbn [pmf_rows List.map bin probability]. rewrite H1, H2. split; reflexivity.
Qed.

Lemma pmf_rows_cum_bounds {B} (probs : list (B * Q)) acc :
  Forall (fun kv => 0 <= snd kv) probs ->
  Forall (fun c => acc <= c /\ c <= acc + column_sum snd probs)
         (List.map cum_probability (pmf_rows acc probs)).
Proof.
  revert acc. induction probs as [|kv l IH]; intros acc Hnn; [constructor|].
  apply Forall_cons_1 in Hnn as [Hk Hl].
  assert (Hs : 0 <= column_sum snd l).
  { clear IH. induction l as [|x l IHl]; [rewrite column_sum_nil; lra|].
    apply Forall_cons_1 in Hl as [Hx Hl]. rewrite column_sum_cons.
    specialize (IHl Hl). lra. }
  cbn [pmf_rows List.map cum_probability]. constructor.
  - rewrite column_sum_cons. lra.
  - eapply Forall_impl; [apply (IH (acc + snd kv) Hl)|].
    intros c [H1 H2]. cbn beta in *. rewrite column_sum_cons. lra.
Qed.

Lemma pmf_rows_sorted {B} (probs : list (B * Q)) acc :
  Forall (fun kv => 0 <= snd kv) probs ->
  StronglySorted Qle (List.map cum_probability (pmf_rows acc probs)).
Proof.
  revert acc. induction probs as [|kv l IH]; intros acc Hnn; [constructor|].
  pose proof Hnn as Hnn'. apply Forall_cons_1 in Hnn' as [Hk Hl].
  cbn [pmf_rows List.map cum_probability]. constructor; [apply IH, Hl|].
  eapply Forall_impl; [apply (pmf_rows_cum_bounds l (acc + snd kv) Hl)|].
  intros c [H1 _]. exact H1.
Qed.






Lemma searchsorted_le a v : (searchsorted a v <= length a)%nat.
Proof. induction a as [|x a IH]; cbn; [lia|]. destruct (Qle_bool v x); cbn; lia. Qed.

Lemma searchsorted_all_below a v :
  Forall (fun c => c < v) a -> searchsorted a v = length a.
Proof.
  induction 1 as [|x a Hx _ IH]; [reflexivity|].
  cbn. apply Qle_bool_false in Hx. rewrite Hx, IH. reflexivity.
Qed.

(** The edges of [_sample_from_pmf] on a PMF with an ascending cumulative
    column.  An empty PMF gives no row; a PMF with rows always gives one of
    them.  A random value above every cumulative probability is clamped to
    the last row, whatever its probability, and a value not above the first
    cumulative probability gives the first row, so that the random value 0
    selects the first bin even when its probability is 0. *)
Theorem sample_from_pmf_edges {B} (pmf : list (pmf_row B)) (rand_val : Q) :
  StronglySorted Qle (List.map cum_probability pmf) ->
  (pmf = [] <-> _sample_from_pmf pmf rand_val = None)
  /\ (forall row, _sample_from_pmf pmf rand_val = Some row -> In row pmf)
  /\ (Forall (fun row => cum_probability row < rand_val) pmf ->
      _sample_from_pmf pmf rand_val = last pmf)
  /\ (forall row rest, pmf = row :: rest -> rand_val <= cum_probability row ->
      _sample_from_pmf pmf rand_val = Some row).
Proof.
  intros _. unfold _sample_from_pmf.
  pose proof (searchsorted_le (List.map cum_probability pmf) rand_val) as Hle.
  rewrite length_map in Hle.
  set (idx := searchsorted (List.map cum_probability pmf) rand_val) in *.
  split; [|split; [|split]].
  - split; [intros ->; reflexivity|].
    intros H. apply lookup_ge_None in H. destruct pmf as [|row rest]; [reflexivity|].
    exfalso. cbn [length] in *.
    destruct (Nat.leb_spec (S (length rest)) idx); lia.
  - intros row H. apply list_elem_of_In. by eapply list_elem_of_lookup_2.
  - intros Hall.
    assert (Hidx : idx = length pmf).
    { unfold idx. rewrite searchsorted_all_below, length_map; [reflexivity|].
      apply Forall_map. exact Hall. }
    rewrite Hidx, Nat.leb_refl. rewrite last_lookup.
    f_equal. lia.
  - intros row rest -> Hr. unfold idx. cbn [List.map searchsorted].
    apply Qle_bool_iff in Hr. rewrite Hr. reflexivity.
Qed.

Lemma sample_from_pmf_edges_witness :
  StronglySorted Qle
    (List.map cum_probability (build_pmf [(17%nat, 0); (18%nat, 60); (19%nat, 40)]))
  /\ _sample_from_pmf (build_pmf [(17%nat, 0); (18%nat, 60); (19%nat, 40)]) 0
     = Some (mkPmfRow 17%nat 0 (0 + 0))
  /\ _sample_from_pmf (build_pmf [(17%nat, 0); (18%nat, 60); (19%nat, 0)]) 100
     = Some (mkPmfRow 19%nat 0 (0 + 0 + 60 + 0)).
Proof.
  assert (H1 : StronglySorted Qle
                 (List.map cum_probability
                           (build_pmf [(17%nat, 0); (18%nat, 60); (19%nat, 40)]))).
  { apply pmf_rows_sorted. repeat constructor; cbn; lra. }
  assert (H2 : StronglySorted Qle
                 (List.map cum_probability
                           (build_pmf [(17%nat, 0); (18%nat, 60); (19%nat, 0)]))).
  { apply pmf_rows_sorted. repeat constructor; cbn; lra. }
  split; [exact H1|]. split.
  - apply (proj2 (proj2 (proj2 (sample_from_pmf_edges _ 0 H1))) _ _ eq_refl).
    cbn. lra.
  - rewrite (proj1 (proj2 (proj2 (sample_from_pmf_edges _ 100 H2)))); [reflexivity|].
    repeat constructor; cbn; lra.
Defined.

Lemma column_sum_map {A B} (f : A -> B) (col : B -> Q) l :
  column_sum col (List.map f l) = column_sum (fun x => col (f x)) l.
Proof.
  unfold column_sum. generalize 0. induction l as [|x l IH]; intros a; [reflexivity|].
  cbn [List.map foldl]. apply IH.
Qed.

(** ** Fleet generation and bookkeeping *)

Lemma make_vehicle_fresh self d v : make_vehicle self d = Some v -> fresh_vehicle self v.
Proof.
  unfold make_vehicle.
  destruct (Qlt_le_dec 0 ((min_soc_target self - draw_return_soc d) * ev_capacity self))
    as [He|He]; [|discriminate].
  destruct (Qlt_le_dec 0 (inject_Z (draw_departure d - draw_arrival d) / 60))
    as [Hh|Hh]; [|discriminate].
  intros [= <-]. unfold fresh_vehicle. cbn.
  split; [exact He|]. split; [reflexivity|]. split; [|repeat split].
  assert (H : 0 < inject_Z (draw_departure d - draw_arrival d)).
  { assert (E : inject_Z (draw_departure d - draw_arrival d) / 60 * 60
                == inject_Z (draw_departure d - draw_arrival d)) by field.
    lra. }
  change 0 with (inject_Z 0) in H. rewrite <- Zlt_Qlt in H. lia.
Qed.

Lemma insert_by_arrival_perm x l : Permutation (x :: l) (insert_by_arrival x l).
Proof.
  induction l as [|y l IH]; cbn [insert_by_arrival]; [reflexivity|].
  destruct (arrival_time x <=? arrival_time y)%Z; [reflexivity|].
  rewrite perm_swap. by constructor.
Qed.

Lemma sort_by_arrival_perm l : Permutation l (sort_by_arrival l).
Proof.
  induction l as [|x l IH]; cbn [sort_by_arrival]; [reflexivity|].
  rewrite <- insert_by_arrival_perm. by constructor.
Qed.

Lemma insert_by_arrival_sorted x l :
  StronglySorted arrives_before l -> StronglySorted arrives_before (insert_by_arrival x l).
Proof.
  induction 1 as [|y l Hs IH Hy]; cbn [insert_by_arrival]; [repeat constructor|].
  destruct (Z.leb_spec (arrival_time x) (arrival_time y)) as [Hle|Hgt].
  - constructor; [by constructor|]. constructor; [exact Hle|].
    eapply Forall_impl; [exact Hy|]. intros z Hz. unfold arrives_before in *. lia.
  - constructor; [exact IH|].
    rewrite <- insert_by_arrival_perm. constructor; [|exact Hy].
    unfold arrives_before. lia.
Qed.

Lemma sort_by_arrival_sorted l : StronglySorted arrives_before (sort_by_arrival l).
Proof.
  induction l as [|x l IH]; cbn [sort_by_arrival]; [constructor|].
  by apply insert_by_arrival_sorted.
Qed.

Lemma fleet_energy_from (vs : list vehicle) a :
  Forall (fun v => 0 < energy_needed_kwh v
                   /\ energy_needed_kwh v = (target_soc v - return_soc v) * capacity_kwh v) vs ->
  foldl (fun total_energy_needed v =>
           let energy_needed := (target_soc v - return_soc v) * capacity_kwh v in
           if Qlt_le_dec 0 energy_needed then total_energy_needed + energy_needed
           else total_energy_needed) a vs
  == a + column_sum energy_needed_kwh vs.
Proof.
  intros H. revert a. induction H as [|v vs [Hpos Heq] _ IH]; intros a.
  - rewrite column_sum_nil. cbn [foldl]. ring.
  - cbn [foldl]. cbn zeta. rewrite <- Heq.
    destruct (Qlt_le_dec 0 (energy_needed_kwh v)) as [_|Hle]; [|lra].
    rewrite IH, column_sum_cons. ring.
Qed.

Lemma make_vehicle_built self d v : make_vehicle self d = Some v -> built_from d v.
Proof.
  unfold make_vehicle.
  destruct (Qlt_le_dec 0 _); [|discriminate]. destruct (Qlt_le_dec 0 _); [|discriminate].
  intros [= <-]. by repeat split.
Qed.

Lemma make_vehicle_needs self d :
  needs_charging self d <-> exists v, make_vehicle self d = Some v.
Proof.
  unfold needs_charging, make_vehicle.
  assert (E : inject_Z (draw_departure d - draw_arrival d) / 60 * 60
              == inject_Z (draw_departure d - draw_arrival d)) by field.
  assert (Z0 : 0 < inject_Z (draw_departure d - draw_arrival d)
               <-> (draw_arrival d < draw_departure d)%Z).
  { change 0 with (inject_Z 0). rewrite <- Zlt_Qlt. lia. }
  destruct (Qlt_le_dec 0 ((min_soc_target self - draw_return_soc d) * ev_capacity self))
    as [He|He].
  - destruct (Qlt_le_dec 0 (inject_Z (draw_departure d - draw_arrival d) / 60)) as [Hh|Hh].
    + split; [eauto|]. intros _. split; [exact He|]. apply Z0. lra.
    + split; [|intros [v [=]]]. intros [_ Hd%Z0]. lra.
  - split; [|intros [v [=]]]. intros [H _]. lra.
Qed.

(** The fleet [initialize_fleet] builds holds exactly the candidates that
    need energy and stay for a positive time: each of them is a vehicle of
    the fleet, and each vehicle of the fleet was built from one of them.
    The fleet is ordered by arrival, every vehicle in it starts at its
    return SOC with an empty schedule, and the fleet's energy need is the
    sum of the vehicles' [energy_needed_kwh]. *)
Theorem initialize_fleet_invariants draws self :
  let vs := vehicles (initialize_fleet draws self) in
  (forall d, In d draws -> needs_charging self d -> exists v, In v vs /\ built_from d v)
  /\ (forall v, In v vs ->
        exists d, In d draws /\ needs_charging self d /\ built_from d v)
  /\ Permutation (omap (make_vehicle self) draws) vs
  /\ StronglySorted arrives_before vs
  /\ Forall (fresh_vehicle self) vs
  /\ (length vs <= length draws)%nat
  /\ calculate_fleet_energy_needs (initialize_fleet draws self)
     == column_sum energy_needed_kwh vs.
Proof.
  intros vs.
  assert (Hvs : vs = sort_by_arrival (omap (make_vehicle self) draws)) by reflexivity.
  assert (Hperm : Permutation (omap (make_vehicle self) draws) vs).
  { rewrite Hvs. apply sort_by_arrival_perm. }
  assert (Hfresh : Forall (fresh_vehicle self) vs).
  { rewrite <- Hperm. apply Forall_forall. intros v Hv.
    apply list_elem_of_omap in Hv as (d & _ & Hd).
    by eapply make_vehicle_fresh. }
  split; [|split].
  - intros d Hd Hneed. apply make_vehicle_needs in Hneed as [v Hv].
    exists v. split; [|by eapply make_vehicle_built].
    apply list_elem_of_In. rewrite <- Hperm. apply list_elem_of_omap.
    exists d. split; [by apply list_elem_of_In|exact Hv].
  - intros v Hv. apply list_elem_of_In in Hv. rewrite <- Hperm in Hv.
    apply list_elem_of_omap in Hv as (d & Hd & Hmk).
    exists d. split; [by apply list_elem_of_In|].
    split; [apply make_vehicle_needs; eauto|by eapply make_vehicle_built].
  - split; [exact Hperm|]. split; [rewrite Hvs; apply sort_by_arrival_sorted|].
    split; [exact Hfresh|]. split.
    + rewrite <- Hperm. clear. induction draws as [|d draws IH]; [reflexivity|].
      cbn [omap list_omap]. destruct (make_vehicle self d); cbn [length]; lia.
    + unfold calculate_fleet_energy_needs. fold vs. rewrite fleet_energy_from; [ring|].
      eapply Forall_impl; [exact Hfresh|]. intros v (H1 & H2 & _). by split.
Qed.

Lemma fleet_energy_static (vs vs' : list vehicle) a :
  Forall2 same_static vs vs' ->
  foldl (fun total_energy_needed v =>
           let energy_needed := (target_soc v - return_soc v) * capacity_kwh v in
           if Qlt_le_dec 0 energy_needed then total_energy_needed + energy_needed
           else total_energy_needed) a vs
  = foldl (fun total_energy_needed v =>
             let energy_needed := (target_soc v - return_soc v) * capacity_kwh v in
             if Qlt_le_dec 0 energy_needed then total_energy_needed + energy_needed
             else total_energy_needed) a vs'.
Proof.
  intros H. revert a. induction H as [|v v' vs vs' Hv _ IH]; intros a; [reflexivity|].
  cbn [foldl]. destruct (same_static_fields _ _ Hv) as (_ & _ & -> & -> & -> & _).
  apply IH.
Qed.

Lemma fleet_energy_nonneg (vs : list vehicle) a :
  0 <= a ->
  0 <= foldl (fun total_energy_needed v =>
                let energy_needed := (target_soc v - return_soc v) * capacity_kwh v in
                if Qlt_le_dec 0 energy_needed then total_energy_needed + energy_needed
                else total_energy_needed) a vs.
Proof.
  revert a. induction vs as [|v vs IH]; intros a Ha; [exact Ha|].
  cbn [foldl]. apply IH. cbn zeta.
  destruct (Qlt_le_dec 0 ((target_soc v - return_soc v) * capacity_kwh v)); lra.
Qed.

Lemma reset_static vs : Forall2 same_static vs (List.map reset_vehicle vs).
Proof. induction vs; constructor; [reflexivity|assumption]. Qed.

(** The fleet energy need is never negative, and it depends on nothing that
    charging changes: it is the same before and after a baseline run, an
    optimized run or a reset of the vehicle states. *)
Theorem fleet_energy_needs_stable sort self s e a :
  0 <= calculate_fleet_energy_needs self
  /\ calculate_fleet_energy_needs (baseline_strategy sort self s e).1.2
     = calculate_fleet_energy_needs self
  /\ calculate_fleet_energy_needs (optimized_strategy self s e a).1.2
     = calculate_fleet_energy_needs self
  /\ calculate_fleet_energy_needs (reset_vehicle_states self)
     = calculate_fleet_energy_needs self.
Proof.
  unfold calculate_fleet_energy_needs. split; [apply fleet_energy_nonneg; lra|].
  split; [|split]; symmetry; apply fleet_energy_static.
  - apply baseline_strategy_static.
  - apply optimized_strategy_static.
  - apply reset_static.
Qed.

Lemma reset_vehicle_static v v' :
  same_static v v' -> initial_state v -> reset_vehicle v' = v.
Proof.
  intros Hs [Hsoc Hsch]. unfold reset_vehicle.
  destruct (same_static_fields _ _ Hs) as (_ & _ & <- & _).
  unfold same_static in Hs.
  destruct v, v'. cbn in *. injection Hs as -> -> -> -> -> -> -> -> -> -> ->.
  subst. reflexivity.
Qed.

Lemma reset_after_static vs vs' :
  Forall2 same_static vs vs' -> Forall initial_state vs ->
  List.map reset_vehicle vs' = vs.
Proof.
  induction 1 as [|v v' vs vs' Hv _ IH]; intros Hi; [reflexivity|].
  apply Forall_cons_1 in Hi as [Hi1 Hi2].
  cbn [List.map]. rewrite (reset_vehicle_static _ _ Hv Hi1), (IH Hi2). reflexivity.
Qed.

Lemma same_static_trans_list vs1 vs2 vs3 :
  Forall2 same_static vs1 vs2 -> Forall2 same_static vs2 vs3 -> Forall2 same_static vs1 vs3.
Proof.
  intros H. revert vs3. induction H; intros vs3 H3; inversion H3; subst; constructor.
  - by eapply same_static_trans.
  - by apply IHForall2.
Qed.

(** [reset_vehicle_states] undoes charging.  On a fleet whose vehicles are
    in their initial state, running the baseline and then the optimized
    strategy and resetting gives back the same vehicles. *)
Theorem reset_undoes_strategies sort self s e s' e' a :
  Forall initial_state (vehicles self) ->
  vehicles (reset_vehicle_states
              (optimized_strategy (baseline_strategy sort self s e).1.2 s' e' a).1.2)
  = vehicles self.
Proof.
  intros Hi. unfold reset_vehicle_states. cbn [vehicles set_vehicles].
  apply reset_after_static; [|exact Hi].
  eapply same_static_trans_list; [apply (baseline_strategy_static sort self s e)|].
  apply optimized_strategy_static.
Qed.

Lemma reset_undoes_strategies_witness :
  Forall initial_state (vehicles Demo.fleet)
  /\ vehicles (reset_vehicle_states
                 (optimized_strategy
                    (baseline_strategy (fun rows => rows) Demo.fleet 0 Demo.horizon_end).1.2
                    0 Demo.horizon_end Demo.half).1.2)
     = vehicles Demo.fleet.
Proof.
  assert (H : Forall initial_state (vehicles Demo.fleet)).
  { repeat constructor. }
  split; [exact H|]. exact (reset_undoes_strategies _ _ _ _ _ _ _ H).
Defined.

(** ** Baseline strategy *)

Lemma baseline_vehicle_cases sort b vs c j :
  baseline_vehicle sort (b, vs, c) j = (b, vs, c)
  \/ exists v slot slots rem b' sch h,
       vs !! j = Some v
       /\ 0 < (target_soc v - return_soc v) * capacity_kwh v
       /\ List.filter (fun r => (Z.max (arrival_time v) (time_min b) <=? Baseline.Time r)%Z
                                && (Baseline.Time r <? Z.min (departure_time v) (time_max b))%Z)
                      b = slot :: slots
       /\ charge_hours v (sort (slot :: slots))
                       ((target_soc v - return_soc v) * capacity_kwh v) b ∅ O
          = (rem, b', sch, h)
       /\ baseline_vehicle sort (b, vs, c) j
          = (b',
             alter (set_state (return_soc v
                               + ((target_soc v - return_soc v) * capacity_kwh v - rem)
                                 / capacity_kwh v) sch) j vs,
             if (0 <? h)%nat then S c else c).
Proof.
  unfold baseline_vehicle. destruct (vs !! j) as [v|]; [|by left].
  destruct (Qlt_le_dec 0 _) as [Hn|]; [|by left].
  destruct (List.filter _ b) as [|slot slots] eqn:Hf; [by left|].
  destruct (charge_hours _ _ _ _ _ _) as [[[rem b'] sch] h] eqn:Hc.
  right. exists v, slot, slots, rem, b', sch, h. by repeat split.
Qed.






Lemma add_charge_other T time kw b :
  time <> T ->
  List.map Baseline.Time (add_charge time kw b) = List.map Baseline.Time b
  /\ rows_at T (add_charge time kw b) = rows_at T b.
Proof.
  intros Hne. unfold add_charge, rows_at. induction b as [|r b [IH1 IH2]]; [by split|].
  cbn [List.map List.filter].
  destruct (Z.eqb_spec (Baseline.Time r) time) as [Heq|Hneq]; cbn [Baseline.Time].
  - rewrite IH1. split; [reflexivity|].
    destruct (Z.eqb_spec (Baseline.Time r) T) as [HT|_]; [congruence|exact IH2].
  - rewrite IH1, IH2. by split.
Qed.

Lemma charge_hours_other T v slots rem b sch h :
  Forall (fun slot => Baseline.Time slot <> T) slots ->
  List.map Baseline.Time (charge_hours v slots rem b sch h).1.1.2 = List.map Baseline.Time b
  /\ rows_at T (charge_hours v slots rem b sch h).1.1.2 = rows_at T b.
Proof.
  intros H. revert rem b sch h.
  induction H as [|slot rest Hs _ IH]; intros rem b sch h; [by split|].
  cbn [charge_hours]. destruct (Qlt_le_dec 0 rem); [|by split].
  match goal with |- context [charge_hours v rest ?r ?b' ?s' ?h'] =>
    destruct (IH r b' s' h') as [H1 H2] end.
  destruct (add_charge_other T (Baseline.Time slot) (py_min (max_charge_kw v) rem) b Hs)
    as [G1 G2].
  rewrite H1, H2. by split.
Qed.

Lemma time_max_times b b' :
  List.map Baseline.Time b = List.map Baseline.Time b' -> time_max b = time_max b'.
Proof.
  unfold time_max. destruct b as [|r b], b' as [|r' b']; try discriminate; [done|].
  cbn [List.map]. intros [= -> H]. generalize (Baseline.Time r'). revert b' H.
  induction b as [|x b IH]; intros [|x' b']; try discriminate; [done|].
  cbn [List.map foldl]. intros [= -> H] m. by apply IH.
Qed.

Lemma baseline_vehicle_last sort b vs c j :
  keeps_rows sort ->
  List.map Baseline.Time (baseline_vehicle sort (b, vs, c) j).1.1 = List.map Baseline.Time b
  /\ rows_at (time_max b) (baseline_vehicle sort (b, vs, c) j).1.1 = rows_at (time_max b) b.
Proof.
  intros Hsort.
  destruct (baseline_vehicle_cases sort b vs c j)
    as [->|(v & slot & slots & rem & b' & sch & h & _ & _ & Hf & Hc & ->)]; [by split|].
  cbn [fst snd].
  assert (Hall : Forall (fun slot => Baseline.Time slot <> time_max b) (sort (slot :: slots))).
  { apply Forall_forall. intros x Hx%list_elem_of_In%Hsort.
    rewrite <- Hf in Hx. apply filter_In in Hx as [_ Hx].
    apply andb_prop in Hx as [_ Hx%Z.ltb_lt]. lia. }
  pose proof (charge_hours_other (time_max b) v _
                ((target_soc v - return_soc v) * capacity_kwh v) b ∅ O Hall) as H.
  rewrite Hc in H. exact H.
Qed.

Lemma baseline_loop_last sort el b vs c :
  keeps_rows sort ->
  List.map Baseline.Time (foldl (baseline_vehicle sort) (b, vs, c) el).1.1
  = List.map Baseline.Time b
  /\ rows_at (time_max b) (foldl (baseline_vehicle sort) (b, vs, c) el).1.1
     = rows_at (time_max b) b.
Proof.
  intros Hsort. revert b vs c. induction el as [|j el IH]; intros b vs c; [by split|].
  cbn [foldl]. destruct (baseline_vehicle_last sort b vs c j Hsort) as [H1 H2].
  destruct (baseline_vehicle sort (b, vs, c) j) as [[b1 vs1] c1]. cbn [fst snd] in H1, H2.
  destruct (IH b1 vs1 c1) as [G1 G2]. rewrite (time_max_times _ _ H1) in G2.
  rewrite G1, G2. by split.
Qed.

Lemma default_last_cons (a b t : Z) ts :
  default a (last (t :: ts)) = default b (last (t :: ts)).
Proof.
  destruct (last (t :: ts)) eqn:E; [reflexivity|]. apply last_None in E. discriminate.
Qed.

Lemma foldl_max_sorted m ts :
  StronglySorted Z.lt (m :: ts) -> foldl Z.max m ts = default m (last ts).
Proof.
  revert m. induction ts as [|t ts IH]; intros m Hs; [reflexivity|].
  cbn [foldl]. apply StronglySorted_inv in Hs as [Hs Hm].
  apply Forall_cons_1 in Hm as [Hmt _].
  rewrite Z.max_r by lia. rewrite (IH t Hs).
  destruct ts as [|t' ts']; [reflexivity|]. rewrite last_cons_cons.
  apply default_last_cons.
Qed.

Lemma time_max_last rows :
  StronglySorted Z.lt (List.map Baseline.Time rows) ->
  time_max rows = default 0%Z (last (List.map Baseline.Time rows)).
Proof.
  unfold time_max. destruct rows as [|r rest]; [reflexivity|]. intros Hs.
  cbn [List.map] in Hs.
  assert (E : foldl (fun m r' => Z.max m (Baseline.Time r')) (Baseline.Time r) rest
              = foldl Z.max (Baseline.Time r) (List.map Baseline.Time rest)).
  { generalize (Baseline.Time r). clear. induction rest as [|x l IH]; intros m; [done|].
    cbn [List.map foldl]. apply IH. }
  rewrite E, (foldl_max_sorted _ _ Hs). cbn [List.map].
  destruct (List.map Baseline.Time rest) as [|t ts]; [reflexivity|].
  rewrite last_cons_cons. apply default_last_cons.
Qed.

Lemma date_range_last start n freq :
  last (date_range start (S n) freq) = Some (start + freq * Z.of_nat n)%Z.
Proof.
  unfold date_range. rewrite seq_S, List.map_app. cbn [List.map Nat.add]. apply last_snoc.
Qed.

Lemma simulation_hours_pos s e : exists n, simulation_hours s e = S n.
Proof.
  unfold simulation_hours. destruct (Z.leb_spec (Z.quot (e - s) 60) 0) as [_|H].
  - by exists 23%nat.
  - exists (Z.to_nat (Z.quot (e - s) 60) - 1)%nat. lia.
Qed.

(** The baseline never charges in the last hour of its horizon: the window
    of a vehicle ends at [min(departure, baseline['Time'].max())] and the
    slot filter is strict, so the last row of the table, at
    start + (hours - 1) h, keeps power 0, vehicle count 0 and cost 0 for
    every fleet and every sort that only reorders rows. *)
Theorem baseline_last_hour_idle sort self s e :
  keeps_rows sort ->
  let table := (baseline_strategy sort self s e).1.1 in
  let hours := simulation_hours s (end_or_default s e) in
  let last_time := (s + 60 * (Z.of_nat hours - 1))%Z in
  time_max table = last_time
  /\ (exists r, In r table /\ Baseline.Time r = last_time)
  /\ forall r, In r table -> Baseline.Time r = last_time ->
               Baseline.total_charge_kw r = 0
               /\ Baseline.total_ev_charging r = O
               /\ Baseline.dam_cost r == 0.
Proof.
  intros Hsort table hours last_time.
  set (times := date_range s hours 60).
  set (b0 := List.map (fun t => baseline_load_price (dam_prices self) (baseline_blank t))
                      times).
  set (el := get_eligible_vehicles (vehicles self) s (end_or_default s e)).
  assert (Htable : table = List.map baseline_cost
                             (foldl (baseline_vehicle sort) (b0, vehicles self, O) el).1.1).
  { unfold table, baseline_strategy. fold hours. fold times. fold b0. fold el.
    destruct (foldl (baseline_vehicle sort) (b0, vehicles self, O) el) as [[b1 vs1] c1].
    reflexivity. }
  destruct (baseline_loop_last sort el b0 (vehicles self) O Hsort) as [H1 H2].
  set (bf := (foldl (baseline_vehicle sort) (b0, vehicles self, O) el).1.1) in *.
  assert (Ht0 : List.map Baseline.Time b0 = times).
  { unfold b0. rewrite List.map_map. cbn. apply List.map_id. }
  assert (Htt : List.map Baseline.Time table = times).
  { rewrite Htable, List.map_map. cbn [baseline_cost Baseline.Time].
    change (List.map (fun x => Baseline.Time x) bf) with (List.map Baseline.Time bf).
    by rewrite H1. }
  assert (Hlast : last times = Some last_time).
  { unfold times, last_time. destruct (simulation_hours_pos s (end_or_default s e)) as [n Hn].
    fold hours in Hn. rewrite Hn, date_range_last. f_equal. lia. }
  assert (Hsorted : StronglySorted Z.lt times) by (apply date_range_sorted; lia).
  assert (Hmax : forall rows, List.map Baseline.Time rows = times ->
                              time_max rows = last_time).
  { intros rows Hr. rewrite time_max_last; rewrite Hr; [|exact Hsorted].
    by rewrite Hlast. }
  split; [by apply Hmax|]. split.
  - assert (Hin : In last_time (List.map Baseline.Time table)).
    { rewrite Htt. apply list_elem_of_In. rewrite last_lookup in Hlast.
      by eapply list_elem_of_lookup_2. }
    apply in_map_iff in Hin as (r & Hr & Hin). by exists r.
  - intros r Hin Hr. rewrite Htable in Hin.
    apply in_map_iff in Hin as (r0 & <- & Hin0).
    cbn [baseline_cost Baseline.Time Baseline.total_charge_kw Baseline.total_ev_charging
         Baseline.dam_cost] in *.
    assert (Hin1 : In r0 (rows_at (time_max b0) bf)).
    { apply filter_In. split; [exact Hin0|]. rewrite (Hmax b0 Ht0). by apply Z.eqb_eq. }
    rewrite H2 in Hin1. apply filter_In in Hin1 as [Hin1 _].
    apply in_map_iff in Hin1 as (t & <- & _).
    cbn. split; [reflexivity|]. split; [reflexivity|]. unfold Qdiv. ring.
Qed.

Lemma baseline_last_hour_idle_witness :
  keeps_rows (fun rows => rows)
  /\ time_max (baseline_strategy (fun rows => rows) Demo.fleet 0 (Some 120%Z)).1.1 = 60%Z.
Proof.
  assert (H : keeps_rows (fun rows => rows)) by (intros rows r Hr; exact Hr).
  split; [exact H|].
  exact (proj1 (baseline_last_hour_idle (fun rows => rows) Demo.fleet 0 (Some 120%Z) H)).
Defined.

(** ** The split under rounded arithmetic *)







